(** * MICLLM: the chunking, answer-parsing and storage pipeline

    A shallow embedding of the Python sources

      - [src/pre_process/process_text.py]   (chunker and metadata extractor)
      - [src/post_process/store_results.py] (answer parser and CSV sink)
      - [src/pre_process/vector.py]         (vector-store build and load)
      - [src/engine.py]                     (the batch orchestrator)

    Text is a list of Latin-1 code points ([list ascii]): the archive files
    are opened with [encoding='latin-1'], so one byte is one character.
    Python exceptions are the left summand of a sum type.  The calls into
    Python's [re] module are modelled by a backtracking matcher for the
    fragment of the pattern language the sources use. *)

From Stdlib Require Import Ascii String List Bool Arith Lia.
From stdpp Require Import gmap strings list.
Import ListNotations.

Abbreviation str := (list ascii).

(** ** Python string literals

    [py "a\n-\n"] reads a Rocq string the way Python reads a (non-raw)
    literal: backslash-n is a line feed, backslash-r a carriage return,
    backslash-t a tab and a doubled backslash one backslash. *)

Definition LF : ascii := ascii_of_nat 10.
Definition CR : ascii := ascii_of_nat 13.
Definition TAB : ascii := ascii_of_nat 9.
Definition BACKSLASH : ascii := ascii_of_nat 92.

Fixpoint unescape (s : str) : str :=
  match s with
  | [] => []
  | c :: s' =>
      if Ascii.eqb c BACKSLASH then
        match s' with
        | d :: s'' =>
            if Ascii.eqb d "n" then LF :: unescape s''
            else if Ascii.eqb d "r" then CR :: unescape s''
            else if Ascii.eqb d "t" then TAB :: unescape s''
            else if Ascii.eqb d BACKSLASH then BACKSLASH :: unescape s''
            else c :: unescape s'
        | [] => [c]
        end
      else c :: unescape s'
  end.

Definition py (s : string) : str := unescape (list_ascii_of_string s).

(** ** Character classes of Python 3 [str] patterns, on code points below 256 *)

Definition code (c : ascii) : nat := nat_of_ascii c.

Definition in_range (lo hi : nat) (c : ascii) : bool :=
  (lo <=? code c) && (code c <=? hi).

(** [str.isspace], which is also the class [\s]: TAB LF VT FF CR, the
    separators FS GS RS US, the space, NEL and the no-break space. *)
Definition is_space (c : ascii) : bool :=
  in_range 9 13 c || in_range 28 32 c || (code c =? 133) || (code c =? 160).

(** [\d]: the decimal digits. *)
Definition is_digit (c : ascii) : bool := in_range 48 57 c.

(** [[A-Z]]. *)
Definition is_upper (c : ascii) : bool := in_range 65 90 c.

(** [\w]: alphanumeric characters ([str.isalnum]) and the underscore. *)
Definition is_word (c : ascii) : bool :=
  in_range 48 57 c || in_range 65 90 c || (code c =? 95) || in_range 97 122 c
  || (code c =? 170) || in_range 178 179 c || (code c =? 181)
  || in_range 185 186 c || in_range 188 190 c
  || in_range 192 214 c || in_range 216 246 c || in_range 248 255 c.

(** [.] without the DOTALL flag: anything but a line feed. *)
Definition not_newline (c : ascii) : bool := negb (Ascii.eqb c LF).

(** [.] under [re.DOTALL]. *)
Definition any_char (c : ascii) : bool := true.

(** [str.strip()] *)
Fixpoint drop_while (p : ascii -> bool) (s : str) : str :=
  match s with
  | c :: s' => if p c then drop_while p s' else s
  | [] => []
  end.

Definition lstrip (s : str) : str := drop_while is_space s.
Definition rstrip (s : str) : str := rev (drop_while is_space (rev s)).
Definition strip (s : str) : str := rstrip (lstrip s).

(** [w] occurs in [s] as a contiguous piece. *)
Definition occurs_in (w s : str) : Prop := exists a b, s = a ++ w ++ b.

(** ** The [re] module *)

Module PyRe.

(** The pattern language the sources use.  Every repetition in them is over
    a one-character atom, so [Repeat] takes a character class. *)
Inductive regex : Type :=
| Empty
| Class (p : ascii -> bool)
| Cat (r1 r2 : regex)
| Alt (r1 r2 : regex)
| Repeat (greedy : bool) (p : ascii -> bool) (lo : nat) (hi : option nat)
| Group (n : nat) (r : regex)
| WordBoundary.

Definition Lit (c : ascii) : regex := Class (Ascii.eqb c).

Fixpoint Str (s : str) : regex :=
  match s with
  | [] => Empty
  | [c] => Lit c
  | c :: s' => Cat (Lit c) (Str s')
  end.

Definition Word (s : string) : regex := Str (list_ascii_of_string s).

Fixpoint AltOf (rs : list regex) : regex :=
  match rs with
  | [] => Class (fun _ => false)
  | [r] => r
  | r :: rs' => Alt r (AltOf rs')
  end.

(** [x*], [x+], [x?], [x{m,n}], [x+?] *)
Definition Star (p : ascii -> bool) : regex := Repeat true p 0 None.
Definition Plus (p : ascii -> bool) : regex := Repeat true p 1 None.
Definition LazyPlus (p : ascii -> bool) : regex := Repeat false p 1 None.
Definition Between (p : ascii -> bool) (lo hi : nat) : regex := Repeat true p lo (Some hi).
Definition Opt (r : regex) : regex := Alt r Empty.

Fixpoint Seq (rs : list regex) : regex :=
  match rs with
  | [] => Empty
  | [r] => r
  | r :: rs' => Cat r (Seq rs')
  end.

(** Captures: group number and captured text, the latest binding first. *)
Definition caps := list (nat * str).

Definition kont (R : Type) := option ascii -> str -> caps -> option R.

Definition is_word_opt (c : option ascii) : bool :=
  match c with Some c => is_word c | None => false end.

(** [\b]: exactly one of the two neighbours is a word character. *)
Definition at_boundary (prev : option ascii) (s : str) : bool :=
  xorb (is_word_opt prev) (is_word_opt (head s)).

Definition room (hi : option nat) : bool :=
  match hi with Some 0 => false | _ => true end.

Definition less (hi : option nat) : option nat :=
  match hi with Some n => Some (pred n) | None => None end.

(** Repetition of a one-character class.  A greedy repetition takes one
    more character before it tries the continuation; a lazy one tries the
    continuation first. *)
Fixpoint rep {R} (greedy : bool) (p : ascii -> bool) (lo : nat) (hi : option nat)
    (prev : option ascii) (s : str) (g : caps) (k : kont R) {struct s} : option R :=
  if greedy then
    match
      match s with
      | c :: s' => if p c && room hi then rep greedy p (pred lo) (less hi) (Some c) s' g k else None
      | [] => None
      end
    with
    | Some x => Some x
    | None => if lo =? 0 then k prev s g else None
    end
  else
    match (if lo =? 0 then k prev s g else None) with
    | Some x => Some x
    | None =>
        match s with
        | c :: s' => if p c && room hi then rep greedy p (pred lo) (less hi) (Some c) s' g k else None
        | [] => None
        end
    end.

(** The text consumed between the input [s] and its suffix [s']. *)
Definition consumed (s s' : str) : str := take (length s - length s') s.

(** The backtracking matcher, in continuation-passing style: [prev] is the
    character before the current position, [s] the input from it on. *)
Fixpoint rmatch {R} (r : regex) (prev : option ascii) (s : str) (g : caps)
    (k : kont R) {struct r} : option R :=
  match r with
  | Empty => k prev s g
  | Class p =>
      match s with
      | c :: s' => if p c then k (Some c) s' g else None
      | [] => None
      end
  | Cat r1 r2 => rmatch r1 prev s g (fun prev' s' g' => rmatch r2 prev' s' g' k)
  | Alt r1 r2 =>
      match rmatch r1 prev s g k with
      | Some x => Some x
      | None => rmatch r2 prev s g k
      end
  | Repeat greedy p lo hi => rep greedy p lo hi prev s g k
  | Group n r1 =>
      rmatch r1 prev s g (fun prev' s' g' => k prev' s' ((n, consumed s s') :: g'))
  | WordBoundary => if at_boundary prev s then k prev s g else None
  end.

(** A match object: where the match starts, the matched text ([m[0]]) and
    the groups. *)
Record match_obj : Type := MatchObj {
  m_start : nat;
  m_text : str;
  m_caps : caps
}.

Definition m_end (m : match_obj) : nat := m_start m + length (m_text m).

(** [m.group(n)] as [findall] reports it: the empty string for a group
    that took no part in the match. *)
Fixpoint lookup_group (n : nat) (g : caps) : option str :=
  match g with
  | [] => None
  | (i, w) :: g' => if i =? n then Some w else lookup_group n g'
  end.

Definition group (n : nat) (m : match_obj) : str :=
  match lookup_group n (m_caps m) with Some w => w | None => [] end.

(** One attempt at the current position.  With [must_advance] an empty
    match is refused (the matcher backtracks into a longer one). *)
Definition try_at (r : regex) (must_advance : bool) (pos : nat)
    (prev : option ascii) (s : str) : option match_obj :=
  rmatch r prev s []
    (fun _ s' g =>
       if must_advance && (length s' =? length s) then None
       else Some (MatchObj pos (consumed s s') g)).

(** [re.search]: the leftmost position at which the pattern matches. *)
Fixpoint search_from (r : regex) (pos : nat) (prev : option ascii) (s : str)
    : option match_obj :=
  match try_at r false pos prev s with
  | Some m => Some m
  | None =>
      match s with
      | c :: s' => search_from r (S pos) (Some c) s'
      | [] => None
      end
  end.

Definition search (r : regex) (s : str) : option match_obj :=
  search_from r 0 None s.

(** [re.finditer]: the non-overlapping matches, left to right.  [skip]
    counts the characters of the last match still to step over.  After an
    empty match the next attempt at the same position must advance. *)
Fixpoint finditer_from (r : regex) (pos : nat) (prev : option ascii) (s : str)
    (skip : nat) {struct s} : list match_obj :=
  let step n :=
    match s with
    | c :: s' => finditer_from r (S pos) (Some c) s' n
    | [] => []
    end in
  match skip with
  | S n => step n
  | 0 =>
      match try_at r false pos prev s with
      | None => step 0
      | Some m =>
          match length (m_text m) with
          | S n => m :: step n
          | 0 =>
              m :: match try_at r true pos prev s with
                   | Some m' => m' :: step (pred (length (m_text m')))
                   | None => step 0
                   end
          end
      end
  end.

Definition finditer (r : regex) (s : str) : list match_obj :=
  finditer_from r 0 None s 0.

Definition slice (s : str) (i j : nat) : str := take (j - i) (drop i s).

(** [re.split] for a pattern without groups: the text between the matches. *)
Fixpoint pieces (s : str) (last : nat) (ms : list match_obj) : list str :=
  match ms with
  | [] => [drop last s]
  | m :: ms' => slice s last (m_start m) :: pieces s (m_end m) ms'
  end.

Definition split (r : regex) (s : str) : list str := pieces s 0 (finditer r s).

(** *** What a pattern denotes

    [matches r prev w rest]: the pattern [r] matches the word [w] when the
    character before it is [prev] and the text after it is [rest] (which
    only [\b] looks at). *)

Fixpoint last_char (prev : option ascii) (w : str) : option ascii :=
  match w with
  | [] => prev
  | c :: w' => last_char (Some c) w'
  end.

Definition within (hi : option nat) (n : nat) : Prop :=
  match hi with Some h => n <= h | None => True end.

Fixpoint matches (r : regex) (prev : option ascii) (w rest : str) : Prop :=
  match r with
  | Empty => w = []
  | Class p => exists c, w = [c] /\ p c = true
  | Cat r1 r2 =>
      exists w1 w2, w = w1 ++ w2 /\ matches r1 prev w1 (w2 ++ rest)
                    /\ matches r2 (last_char prev w1) w2 rest
  | Alt r1 r2 => matches r1 prev w rest \/ matches r2 prev w rest
  | Repeat _ p lo hi => forallb p w = true /\ lo <= length w /\ within hi (length w)
  | Group _ r1 => matches r1 prev w rest
  | WordBoundary => w = [] /\ at_boundary prev rest = true
  end.

(** A match object found in [s] after the character [prev]: its text is a
    piece of [s] the pattern denotes, and its groups are pieces of it. *)
Definition found (r : regex) (prev : option ascii) (s : str) (m : match_obj) : Prop :=
  (exists pre post, s = pre ++ m_text m ++ post
                    /\ matches r (last_char prev pre) (m_text m) post)
  /\ forall n t, In (n, t) (m_caps m) -> occurs_in t (m_text m).

End PyRe.

(** ** Python values and exceptions *)

(** The exceptions the modelled code can raise. *)
Inductive exn : Type :=
| IndexError        (* list index out of range *)
| TypeError         (* [len(None)], or indexing a [str] with a [str] *)
| FileNotFoundError
| OtherError.       (* an error of an external library *)

Definition outcome (A : Type) : Type := exn + A.

#[global] Instance outcome_ret : MRet (sum exn) := fun A x => inr x.
#[global] Instance outcome_bind : MBind (sum exn) :=
  fun A B f m => match m with inl e => inl e | inr x => f x end.

Definition raise {A} (e : exn) : outcome A := inl e.

(** [l[i]] on a list. *)
Definition getitem {A} (l : list A) (i : nat) : outcome A :=
  match l !! i with
  | Some x => inr x
  | None => raise IndexError
  end.

(** [range(start, stop, step)] for a positive [step]. *)
Definition py_range (start stop step : nat) : list nat :=
  map (fun k => start + k * step) (seq 0 ((stop - start + (step - 1)) / step)).

(** ** [src/pre_process/process_text.py] *)

Module process_text.
Import PyRe.

(** The value of the variable [codes], and so of a chunk's
    ['country_codes']: the list [re.findall] returns, one of its tuples,
    a string, or [None]. *)
Inductive codes_val : Type :=
| CodesList (l : list (str * str))
| CodesTuple (p : str * str)
| CodesStr (s : str)
| CodesNone.

(** A chunk: the dictionary with the keys ['content'], ['country_codes']
    and ['published_date']. *)
Record chunk : Type := Chunk {
  content : str;
  country_codes : codes_val;
  published_date : option str
}.

(** [r'\n=+\n'] *)
Definition section_pattern : regex :=
  Seq [Lit LF; Plus (Ascii.eqb "="); Lit LF].

(** [r'([A-Z]+)-([A-Z]+)'] *)
Definition codes_pattern : regex :=
  Seq [Group 1 (Plus is_upper); Lit "-"; Group 2 (Plus is_upper)].

(** [r"\n\-+\n"] *)
Definition article_pattern : regex :=
  Seq [Lit LF; Plus (Ascii.eqb "-"); Lit LF].

(** [r"SVM score:.*\n"] *)
Definition md_pattern : regex :=
  Seq [Word "SVM score:"; Star not_newline; Lit LF].

Definition months : list string :=
  ["January"; "February"; "March"; "April"; "May"; "June"; "July"; "August";
   "September"; "October"; "November"; "December"]%string.

Definition weekdays : list string :=
  ["Monday"; "Tuesday"; "Wednesday"; "Thursday"; "Friday"; "Saturday"; "Sunday"]%string.

(** [r"\b(?:January|...|December)\s\d{1,2},\s\d{4}(?:,*\s?)?(?:Monday|...|Sunday)\b"] *)
Definition date_pattern : regex :=
  Seq [WordBoundary;
       AltOf (map Word months);
       Class is_space;
       Between is_digit 1 2;
       Lit ",";
       Class is_space;
       Between is_digit 4 4;
       Opt (Cat (Star (Ascii.eqb ",")) (Between is_space 0 1));
       AltOf (map Word weekdays);
       WordBoundary].

(** [r'\n\_+\n'] *)
Definition general_pattern : regex :=
  Seq [Lit LF; Plus (Ascii.eqb "_"); Lit LF].

(** [re.findall] with the two groups of [codes_pattern]: a list of pairs. *)
Definition findall_codes (s : str) : list (str * str) :=
  map (fun m => (group 1 m, group 2 m)) (finditer codes_pattern s).

(** [len(codes)]: [None] has no length. *)
Definition py_len (codes : codes_val) : outcome nat :=
  match codes with
  | CodesList l => inr (length l)
  | CodesTuple _ => inr 2
  | CodesStr s => inr (length s)
  | CodesNone => raise TypeError
  end.

(** [codes[0]] *)
Definition first_item (codes : codes_val) : outcome codes_val :=
  match codes with
  | CodesList (p :: _) => inr (CodesTuple p)
  | CodesList [] => raise IndexError
  | CodesTuple (a, _) => inr (CodesStr a)
  | CodesStr (c :: _) => inr (CodesStr [c])
  | CodesStr [] => raise IndexError
  | CodesNone => raise TypeError
  end.

(** Lines 82-85: [if len(codes) > 1: codes = codes[0]  else: codes = None]. *)
Definition update_codes (codes : codes_val) : outcome codes_val :=
  n ← py_len codes;
  if 1 <? n then first_item codes else inr CodesNone.

(** [re.search(date_pattern, text)] and, on a match, [published_date[0]]. *)
Definition find_date (text : str) : option str :=
  m_text <$> search date_pattern text.

Section Chunker.

(** [RecursiveCharacterTextSplitter(chunk_size=1000, chunk_overlap=200).split_text]
    of the langchain library. *)
Variable split_text : str -> list str.

(** The body of the loop over [news_articles] (lines 74-94): the new value
    of [codes] and the chunks appended to [result]. *)
Definition article_step (codes : codes_val) (article : str)
    : outcome (codes_val * list chunk) :=
  let content := split md_pattern article in
  first ← getitem content 0;
  let published_date := find_date first in
  codes' ← update_codes codes;
  body ← getitem content 1;
  mret (codes', map (fun c => Chunk c codes' published_date) (split_text body)).

Fixpoint for_articles (codes : codes_val) (news_articles : list str)
    : outcome (list chunk) :=
  match news_articles with
  | [] => mret []
  | article :: rest =>
      '(codes', chunks) ← article_step codes article;
      more ← for_articles codes' rest;
      mret (chunks ++ more)
  end.

(** One turn of the loop over [i] (lines 67-94). *)
Definition section_step (sections : list str) (i : nat) : outcome (list chunk) :=
  body ← getitem sections i;
  let chunk := strip body in
  header ← getitem sections (i - 1);
  let codes := CodesList (findall_codes header) in
  let news_articles := split article_pattern chunk in
  for_articles codes news_articles.

Fixpoint for_sections (sections : list str) (indices : list nat)
    : outcome (list chunk) :=
  match indices with
  | [] => mret []
  | i :: rest =>
      chunks ← section_step sections i;
      more ← for_sections sections rest;
      mret (chunks ++ more)
  end.

Definition chunk_file_for_year_content (content : str) : outcome (list chunk) :=
  let sections := split section_pattern content in
  for_sections sections (py_range 2 (length sections) 2).

Definition chunk_file_content (content : str) : list chunk :=
  let sections := split general_pattern content in
  flat_map (fun section => map (fun c => Chunk c CodesNone None) (split_text section))
           sections.

(** The files of the archive years (line 25). *)
Definition era_files : list string :=
  ["2002.txt"; "2003.txt"; "2004.txt"; "2005.txt"; "2006.txt"; "2007.txt";
   "2008.txt"; "2009.txt"; "2010.txt"; "2011.txt"]%string.

(** Reading in text mode translates the line endings CR LF and CR to LF. *)
Fixpoint universal_newlines (s : str) : str :=
  match s with
  | [] => []
  | c :: s' =>
      if Ascii.eqb c CR then
        match s' with
        | d :: s'' => if Ascii.eqb d LF then LF :: universal_newlines s''
                      else LF :: universal_newlines s'
        | [] => [LF]
        end
      else c :: universal_newlines s'
  end.

(** [file.name] of a file object opened by path: the path as it was given
    to [open]. *)
Definition file_name (file_path : string) : string := file_path.

(** The file system: the stored characters of each file, by path. *)
Definition read_txt_file (fs : gmap string str) (file_path : string)
    : outcome (list chunk * string) :=
  match fs !! file_path with
  | None => raise FileNotFoundError
  | Some stored =>
      let content := universal_newlines stored in
      if bool_decide (file_name file_path ∈ era_files) then
        chunks ← chunk_file_for_year_content content;
        mret (chunks, file_name file_path)
      else
        mret (chunk_file_content content, file_name file_path)
  end.

End Chunker.

Definition get_file_name (fs : gmap string str) (file_path : string) : outcome string :=
  match fs !! file_path with
  | None => raise FileNotFoundError
  | Some _ => mret (file_name file_path)
  end.

(** A splitter for the examples: the stripped text as a single chunk, and
    no chunk for a blank text, as the library's splitter does with a text
    below its chunk size. *)
Definition whole_text (text : str) : list str :=
  match strip text with
  | [] => []
  | t => [t]
  end.

(** *** The shape of a publication date

    [dated before d after]: [d] reads month name, one white-space
    character, one or two digits, a comma, one white-space character, four
    digits, any number of commas, at most one white-space character and a
    weekday name; the characters next to it, [before] and [after], are no
    word characters. *)

Definition one_of (names : list string) (w : str) : Prop :=
  exists n, In n names /\ w = list_ascii_of_string n.

Definition all_of (p : ascii -> bool) (w : str) : Prop := forallb p w = true.

Definition dated (before : option ascii) (d : str) (after : option ascii) : Prop :=
  exists month sp1 day sp2 year commas sp3 weekday,
    d = month ++ [sp1] ++ day ++ py "," ++ [sp2] ++ year ++ commas ++ sp3 ++ weekday
    /\ one_of months month
    /\ is_space sp1 = true
    /\ all_of is_digit day /\ 1 <= length day <= 2
    /\ is_space sp2 = true
    /\ all_of is_digit year /\ length year = 4
    /\ all_of (Ascii.eqb ",") commas
    /\ all_of is_space sp3 /\ length sp3 <= 1
    /\ one_of weekdays weekday
    /\ is_word_opt before = false
    /\ is_word_opt after = false.

(** *** Measures for the properties of the chunker *)

(** How many more articles the value of [codes] can go through before
    [len(codes)] raises. *)
Definition updates_left (codes : codes_val) : nat :=
  match codes with
  | CodesList l => if 1 <? length l then 4 else 1
  | CodesTuple _ => 3
  | CodesStr s => if 1 <? length s then 2 else 1
  | CodesNone => 0
  end.

(** [content[1]] of an article: the text between its first score line and
    the next one, or the end. *)
Definition article_body (article : str) : str :=
  default [] (split md_pattern article !! 1).

(** The articles of the body section at index [i], and the texts the
    chunker hands to the splitter, in the order of the file. *)
Definition articles_at (sections : list str) (i : nat) : list str :=
  split article_pattern (strip (default [] (sections !! i))).

Definition body_texts (content : str) : list str :=
  let sections := split section_pattern content in
  flat_map (fun i => map article_body (articles_at sections i))
           (py_range 2 (length sections) 2).

End process_text.

(** ** [src/post_process/store_results.py] *)

Module store_results.
Import PyRe.

(** One extracted fact: the dictionary with the keys ['Date'],
    ['Death Count'] and ['Countries involved']. *)
Record fact : Type := Fact {
  Date : str;
  Death_Count : str;
  Countries_involved : str
}.

(** The dictionary the question-answering chain returns; [extract_data]
    reads its ['result']. *)
Record response : Type := Response {
  query : str;
  result : str
}.

(** [r"-\sDate:\s*(.+?)\n\s*-\sDeath\sCount:\s*(.+?)\n\s*-\sCountries\sinvolved:\s*(.+?)\n\n"]
    under [re.DOTALL]. *)
Definition answer_pattern : regex :=
  Seq [Lit "-"; Class is_space; Word "Date:"; Star is_space;
       Group 1 (LazyPlus any_char); Lit LF; Star is_space;
       Lit "-"; Class is_space; Word "Death"; Class is_space; Word "Count:"; Star is_space;
       Group 2 (LazyPlus any_char); Lit LF; Star is_space;
       Lit "-"; Class is_space; Word "Countries"; Class is_space; Word "involved:"; Star is_space;
       Group 3 (LazyPlus any_char); Lit LF; Lit LF].

(** [re.findall] with three groups: one triple per match. *)
Definition findall_answer (answer : str) : list (str * str * str) :=
  map (fun m => (group 1 m, group 2 m, group 3 m)) (finditer answer_pattern answer).

Definition extract_data (model_response : response) : list fact :=
  let answer := result model_response in
  let matches := findall_answer answer in
  map (fun '(date, death_count, countries) =>
         Fact (strip date) (strip death_count) (strip countries))
      matches.

(** A text without white space at either end. *)
Definition is_space_opt (c : option ascii) : bool :=
  match c with Some c => is_space c | None => false end.

Definition trimmed (s : str) : Prop :=
  is_space_opt (head s) = false /\ is_space_opt (last s) = false.

(** *** The CSV writer ([csv.DictWriter], dialect [excel]) *)

Definition QUOTE : ascii := ascii_of_nat 34.
Definition COMMA : ascii := ascii_of_nat 44.

(** A field is quoted when it holds the delimiter, the quote character or
    a character of the line terminator; a quote inside it is doubled. *)
Definition needs_quotes (field : str) : bool :=
  existsb (fun c => Ascii.eqb c COMMA || Ascii.eqb c QUOTE || Ascii.eqb c CR || Ascii.eqb c LF)
          field.

Definition double_quotes (field : str) : str :=
  flat_map (fun c => if Ascii.eqb c QUOTE then [QUOTE; QUOTE] else [c]) field.

Definition csv_field (field : str) : str :=
  if needs_quotes field then QUOTE :: double_quotes field ++ [QUOTE]
  else field.

Fixpoint join (sep : str) (fields : list str) : str :=
  match fields with
  | [] => []
  | [f] => f
  | f :: rest => f ++ sep ++ join sep rest
  end.

Definition csv_row (fields : list str) : str :=
  join [COMMA] (map csv_field fields) ++ [CR; LF].

Definition fieldnames : list str :=
  [py "Date"; py "Death Count"; py "Countries involved"].

(** What the writer is asked to write. *)
Inductive csv_op : Type :=
| WriteHeader
| WriteRow (row : fact).

Definition render (op : csv_op) : str :=
  match op with
  | WriteHeader => csv_row fieldnames
  | WriteRow (Fact d n c) => csv_row [d; n; c]
  end.

Definition is_header (op : csv_op) : bool :=
  match op with WriteHeader => true | WriteRow _ => false end.

(** Lines 27-30: the header if the file is new, then the rows. *)
Definition writer_ops (file_exists : bool) (data : list fact) : list csv_op :=
  (if file_exists then [] else [WriteHeader]) ++ map WriteRow data.

(** The text the rows of a response come to. *)
Definition rows_text (model_response : response) : str :=
  concat (map render (map WriteRow (extract_data model_response))).

(** The file system holds the characters of each file, by path.  Opening
    in mode ["a"] creates a missing file and writes at the end. *)
Definition save_to_csv (model_response : response) (filename : string)
    (fs : gmap string str) : gmap string str :=
  let data := extract_data model_response in
  let file_exists := bool_decide (is_Some (fs !! filename)) in
  let old := default [] (fs !! filename) in
  <[filename := old ++ concat (map render (writer_ops file_exists data))]> fs.

(** [fs'] differs from [fs] at most by text added at the end of the file
    [filename]. *)
Definition appended_to (filename : string) (fs fs' : gmap string str) : Prop :=
  (forall p, p <> filename -> fs' !! p = fs !! p)
  /\ (exists added, default [] (fs' !! filename) = default [] (fs !! filename) ++ added)
  /\ (is_Some (fs !! filename) -> is_Some (fs' !! filename)).

(** The characters that end a field: the delimiter and the start of the
    line terminator. *)
Definition ends_field (c : ascii) : bool := Ascii.eqb c COMMA || Ascii.eqb c CR.

End store_results.

(** ** [src/pre_process/vector.py] *)

Module vector.
Import process_text.

Definition VECTOR_STORE_PATH : string := "results/vector_stores/".

(** A langchain [Document]: the text and the two metadata entries. *)
Record document : Type := Document {
  page_content : str;
  meta_country_codes : codes_val;
  meta_published_date : option str
}.

(** What a caller can hand to [create_vector_store]: Python checks no
    argument types, so either parameter may receive a string or a list of
    chunks. *)
Inductive pyval : Type :=
| PyStr (s : string)
| PyChunks (l : list chunk).

Section Indexer.

(** The FAISS vector store, and the library calls on it:
    [embedding_model.encode] followed by [FAISS.from_embeddings], and
    [FAISS.load_local]. *)
Variable handle : Type.
Variable from_embeddings : list document -> outcome handle.
Variable load_local : string -> handle -> outcome handle.

(** [str()] of a list of dictionaries, for the f-string of line 53. *)
Variable repr : list chunk -> string.

(** Lines 24-32.  Iterating a string yields its characters, and
    [chunk["content"]] on a character raises [TypeError]. *)
Definition documents_of (chunks : pyval) : outcome (list document) :=
  match chunks with
  | PyChunks l =>
      mret (map (fun chunk => Document (content chunk) (country_codes chunk)
                                       (published_date chunk)) l)
  | PyStr EmptyString => mret []
  | PyStr (String _ _) => raise TypeError
  end.

Definition format (v : pyval) : string :=
  match v with
  | PyStr s => s
  | PyChunks l => repr l
  end.

(** [f"{VECTOR_STORE_PATH}/{filename}"] *)
Definition store_path (filename : string) : string :=
  VECTOR_STORE_PATH +:+ "/" +:+ filename.

(** The persisted stores, by the folder path given to [save_local].  The
    assertion of lines 35-37 holds of every document built above. *)
Definition create_vector_store (chunks filename : pyval) (disk : gmap string handle)
    : outcome handle * gmap string handle :=
  match documents_of chunks with
  | inl e => (inl e, disk)
  | inr documents =>
      match from_embeddings documents with
      | inl e => (inl e, disk)
      | inr vector_store =>
          (inr vector_store, <[store_path (format filename) := vector_store]> disk)
      end
  end.

(** [os.path.exists(filepath)], then [FAISS.load_local]; an error of the
    load is printed and raised again. *)
Definition retrieve_vector_store (filename : string) (disk : gmap string handle)
    : outcome handle :=
  let filepath := store_path filename in
  match disk !! filepath with
  | None => raise FileNotFoundError
  | Some stored => load_local filepath stored
  end.

End Indexer.

End vector.

(** ** [src/engine.py] *)

Module engine.
Import process_text vector.

Definition DATA_PATH : string := "data/".
Definition RESULTS_PATH : string := "results/".

Definition ends_with_slash (s : string) : bool :=
  match rev (list_ascii_of_string s) with
  | c :: _ => Ascii.eqb c "/"
  | [] => false
  end.

(** [os.path.join(root, file)] for a file name of a directory listing. *)
Definition path_join (root file : string) : string :=
  if bool_decide (root = ""%string) then file
  else if ends_with_slash root then root +:+ file
  else root +:+ "/" +:+ file.

Section Orchestrator.

Variable split_text : str -> list str.
Variable handle : Type.
Variable from_embeddings : list document -> outcome handle.
Variable repr : list chunk -> string.

(** The inner loop of [pre_process_vector_store] (lines 29-33).  Line 32
    calls [create_vector_store(filename, chunks)]. *)
Fixpoint for_files (root : string) (files : list string) (fs : gmap string str)
    (disk : gmap string handle) : outcome unit * gmap string handle :=
  match files with
  | [] => (inr tt, disk)
  | file :: rest =>
      let file_path := path_join root file in
      match read_txt_file split_text fs file_path with
      | inl e => (inl e, disk)
      | inr (chunks, filename) =>
          match create_vector_store handle from_embeddings repr
                  (PyStr filename) (PyChunks chunks) disk with
          | (inl e, disk') => (inl e, disk')
          | (inr _, disk') => for_files root rest fs disk'
          end
      end
  end.

(** [walk] is what [os.walk(DATA_PATH)] yields: each directory with the
    files in it. *)
Fixpoint pre_process_vector_store (walk : list (string * list string))
    (fs : gmap string str) (disk : gmap string handle)
    : outcome unit * gmap string handle :=
  match walk with
  | [] => (inr tt, disk)
  | (root, files) :: rest =>
      match for_files root files fs disk with
      | (inl e, disk') => (inl e, disk')
      | (inr _, disk') => pre_process_vector_store rest fs disk'
      end
  end.

(** [FAISS.load_local], and the language-model call [ask_gpt] of
    [src/inference/chain.py]. *)
Variable load_local : string -> handle -> outcome handle.
Variable ask_gpt : handle -> outcome store_results.response.

(** The inner loop of [post_process_results] (lines 43-48): the file system
    as the appends to the CSV file leave it. *)
Fixpoint for_answers (root : string) (files : list string) (fs : gmap string str)
    (disk : gmap string handle) : outcome unit * gmap string str :=
  match files with
  | [] => (inr tt, fs)
  | file :: rest =>
      let file_path := path_join root file in
      match get_file_name fs file_path with
      | inl e => (inl e, fs)
      | inr name =>
          match retrieve_vector_store handle load_local name disk with
          | inl e => (inl e, fs)
          | inr vector_store =>
              match ask_gpt vector_store with
              | inl e => (inl e, fs)
              | inr answer =>
                  for_answers root rest
                    (store_results.save_to_csv answer
                       (RESULTS_PATH +:+ "military_casualties.csv") fs)
                    disk
              end
          end
      end
  end.

Fixpoint post_process_results (walk : list (string * list string))
    (fs : gmap string str) (disk : gmap string handle)
    : outcome unit * gmap string str :=
  match walk with
  | [] => (inr tt, fs)
  | (root, files) :: rest =>
      match for_answers root files fs disk with
      | (inl e, fs') => (inl e, fs')
      | (inr _, fs') => post_process_results rest fs' disk
      end
  end.

(** [main]: the index-build phase, then the extract-and-save phase over the
    same directory; an exception of the first ends the run. *)
Definition main (walk : list (string * list string)) (fs : gmap string str)
    (disk : gmap string handle)
    : outcome unit * gmap string str * gmap string handle :=
  match pre_process_vector_store walk fs disk with
  | (inl e, disk') => (inl e, fs, disk')
  | (inr _, disk') =>
      match post_process_results walk fs disk' with
      | (r, fs') => (r, fs', disk')
      end
  end.

End Orchestrator.

End engine.

(** * Properties *)

(** ** The matcher against what a pattern denotes *)

Section MatcherFacts.
Import PyRe.

Lemma last_char_app (prev : option ascii) (w1 w2 : str) :
  last_char prev (w1 ++ w2) = last_char (last_char prev w1) w2.
Proof.
  revert prev. induction w1 as [|c w1 IH]; intros prev; simpl; [reflexivity | apply IH].
Qed.

Lemma last_char_last (w : str) : last_char None w = last w.
Proof.
  enough (H : forall prev, last_char prev w = match last w with Some c => Some c | None => prev end).
  { rewrite H. destruct (last w); reflexivity. }
  induction w as [|c w IH]; intros prev; simpl; [reflexivity|].
  destruct w as [|a w]; [reflexivity|].
  change (last (c :: a :: w)) with (last (a :: w)).
  rewrite <- (IH prev). reflexivity.
Qed.

Lemma consumed_app (w s' : str) : consumed (w ++ s') s' = w.
Proof.
  unfold consumed. rewrite length_app.
  replace (length w + length s' - length s') with (length w) by lia.
  apply take_app_length.
Qed.

(** The two ways a repetition can succeed: stop here, or take one more
    character. *)
Lemma rep_cases {R} greedy p lo hi prev s g (k : kont R) x :
  rep greedy p lo hi prev s g k = Some x ->
  (lo = 0 /\ k prev s g = Some x)
  \/ (exists c s', s = c :: s' /\ p c = true /\ room hi = true
                   /\ rep greedy p (pred lo) (less hi) (Some c) s' g k = Some x).
Proof.
  intros H. destruct s as [|c s']; simpl in H.
  - left. destruct greedy; destruct (lo =? 0) eqn:E; try discriminate;
      apply Nat.eqb_eq in E; split; try assumption;
      destruct (k prev [] g); congruence.
  - destruct greedy.
    + destruct (p c && room hi) eqn:E.
      * destruct (rep true p (pred lo) (less hi) (Some c) s' g k) as [y|] eqn:E'.
        -- right. apply andb_true_iff in E as [? ?]. exists c, s'. repeat split; congruence.
        -- left. destruct (lo =? 0) eqn:E0; [|discriminate].
           apply Nat.eqb_eq in E0. split; assumption.
      * left. destruct (lo =? 0) eqn:E0; [|discriminate].
        apply Nat.eqb_eq in E0. split; assumption.
    + destruct (lo =? 0) eqn:E0.
      * apply Nat.eqb_eq in E0.
        destruct (k prev (c :: s') g) as [y|] eqn:Ek.
        -- left. split; congruence.
        -- right. destruct (p c && room hi) eqn:E; [|discriminate].
           apply andb_true_iff in E as [? ?]. exists c, s'. repeat split; assumption.
      * right. destruct (p c && room hi) eqn:E; [|discriminate].
        apply andb_true_iff in E as [? ?]. exists c, s'. repeat split; assumption.
Qed.

Lemma rep_sound {R} greedy p s :
  forall lo hi prev g (k : kont R) x,
    rep greedy p lo hi prev s g k = Some x ->
    exists w s', s = w ++ s' /\ forallb p w = true /\ lo <= length w
                 /\ within hi (length w) /\ k (last_char prev w) s' g = Some x.
Proof.
  induction s as [|c s IH]; intros lo hi prev g k x H;
    apply rep_cases in H as [[-> Hk] | (c' & s' & Heq & Hp & Hroom & Hrep)].
  - exists [], []. repeat split; simpl; try lia; try assumption.
    destruct hi; simpl; [lia | exact I].
  - discriminate.
  - exists [], (c :: s). repeat split; simpl; try lia; try assumption.
    destruct hi; simpl; [lia | exact I].
  - injection Heq as <- <-.
    apply IH in Hrep as (w & s'' & -> & Hall & Hlo & Hhi & Hk).
    exists (c :: w), s''. simpl. rewrite Hp, Hall. repeat split; try lia; try assumption.
    destruct hi as [[|h]|]; simpl in *; try discriminate; try lia; exact I.
Qed.

Lemma rep_complete {R} greedy p w :
  forall s' lo hi prev g (k : kont R),
    forallb p w = true -> lo <= length w -> within hi (length w) ->
    is_Some (k (last_char prev w) s' g) ->
    is_Some (rep greedy p lo hi prev (w ++ s') g k).
Proof.
  induction w as [|c w IH]; intros s' lo hi prev g k Hall Hlo Hhi Hk; simpl in *.
  - assert (lo = 0) as -> by lia.
    destruct s' as [|d s']; simpl; destruct greedy; simpl.
    + assumption.
    + destruct Hk as [y ->]. eauto.
    + destruct (p d && room hi);
        [destruct (rep true p 0 (less hi) (Some d) s' g k); eauto | assumption].
    + destruct Hk as [y ->]. eauto.
  - apply andb_true_iff in Hall as [Hp Hall].
    assert (Hroom : room hi = true) by (destruct hi as [[|h]|]; simpl in *; try reflexivity; lia).
    assert (Hmore : is_Some (rep greedy p (pred lo) (less hi) (Some c) (w ++ s') g k)).
    { apply IH; try assumption; [lia|].
      destruct hi as [h|]; simpl in *; [lia | exact I]. }
    rewrite Hp, Hroom. simpl. destruct greedy.
    + destruct Hmore as [y ->]. eauto.
    + destruct (lo =? 0); [|assumption].
      destruct (k prev (c :: w ++ s') g); eauto.
Qed.

(** Soundness: a successful run consumed a word the pattern denotes and
    then called the continuation. *)
Lemma rmatch_sound {R} r :
  forall prev s g (k : kont R) x,
    rmatch r prev s g k = Some x ->
    exists w s' g', s = w ++ s' /\ matches r prev w s'
                    /\ k (last_char prev w) s' g' = Some x.
Proof.
  induction r as [|p|r1 IH1 r2 IH2|r1 IH1 r2 IH2|greedy p lo hi|n r IH|];
    intros prev s g k x H; simpl in H.
  - exists [], s, g. repeat split; assumption.
  - destruct s as [|c s]; [discriminate|]. destruct (p c) eqn:Hp; [|discriminate].
    exists [c], s, g. repeat split; simpl; eauto.
  - apply IH1 in H as (w1 & s1 & g1 & -> & H1 & H).
    apply IH2 in H as (w2 & s2 & g2 & -> & H2 & H).
    exists (w1 ++ w2), s2, g2. rewrite <- app_assoc, last_char_app.
    repeat split; try assumption. simpl. exists w1, w2. repeat split; assumption.
  - destruct (rmatch r1 prev s g k) as [y|] eqn:E.
    + injection H as ->. apply IH1 in E as (w & s' & g' & -> & Hm & Hk).
      exists w, s', g'. repeat split; try assumption. left. assumption.
    + apply IH2 in H as (w & s' & g' & -> & Hm & Hk).
      exists w, s', g'. repeat split; try assumption. right. assumption.
  - apply rep_sound in H as (w & s' & -> & Hall & Hlo & Hhi & Hk).
    exists w, s', g. repeat split; assumption.
  - apply IH in H as (w & s' & g' & -> & Hm & Hk).
    exists w, s', ((n, consumed (w ++ s') s') :: g'). repeat split; assumption.
  - destruct (at_boundary prev s) eqn:E; [|discriminate].
    exists [], s, g. repeat split; assumption.
Qed.

(** Completeness: if the pattern denotes a prefix of the input after which
    the continuation succeeds, the run succeeds. *)
Lemma rmatch_complete {R} r :
  forall prev w s' g (k : kont R),
    matches r prev w s' ->
    (forall g', is_Some (k (last_char prev w) s' g')) ->
    is_Some (rmatch r prev (w ++ s') g k).
Proof.
  induction r as [|p|r1 IH1 r2 IH2|r1 IH1 r2 IH2|greedy p lo hi|n r IH|];
    intros prev w s' g k Hm Hk; simpl in Hm |- *.
  - subst w. apply Hk.
  - destruct Hm as (c & -> & Hp). simpl. rewrite Hp. apply Hk.
  - destruct Hm as (w1 & w2 & -> & H1 & H2). rewrite <- app_assoc.
    apply IH1; [assumption|]. intros g'. apply IH2; [assumption|].
    intros g''. rewrite <- last_char_app. apply Hk.
  - destruct Hm as [Hm|Hm].
    + destruct (IH1 prev w s' g k Hm Hk) as [y ->]. eauto.
    + destruct (rmatch r1 prev (w ++ s') g k); [eauto|]. apply IH2; assumption.
  - destruct Hm as (Hall & Hlo & Hhi). apply rep_complete; auto.
  - apply IH; [assumption|]. intros g'. apply Hk.
  - destruct Hm as [-> Hb]. simpl. rewrite Hb. apply Hk.
Qed.

Lemma try_at_sound r pos prev s m :
  try_at r false pos prev s = Some m ->
  m_start m = pos /\ exists s', s = m_text m ++ s' /\ matches r prev (m_text m) s'.
Proof.
  unfold try_at. intros H.
  apply rmatch_sound in H as (w & s' & g' & -> & Hm & Hk).
  simpl in Hk. injection Hk as <-. simpl. rewrite consumed_app.
  split; [reflexivity|]. exists s'. split; [reflexivity | assumption].
Qed.

Lemma try_at_complete r pos prev w s' :
  matches r prev w s' -> is_Some (try_at r false pos prev (w ++ s')).
Proof.
  intros Hm. unfold try_at. apply rmatch_complete; [assumption|].
  intros g'. simpl. eauto.
Qed.

(** [re.search] returns the leftmost match, and none only when the pattern
    matches nowhere. *)
Lemma search_from_sound r s :
  forall pos prev m,
    search_from r pos prev s = Some m ->
    exists pre post,
      s = pre ++ m_text m ++ post /\ m_start m = pos + length pre
      /\ matches r (last_char prev pre) (m_text m) post
      /\ forall pre' w' post',
           s = pre' ++ w' ++ post' -> matches r (last_char prev pre') w' post' ->
           length pre <= length pre'.
Proof.
  induction s as [|c s IH]; intros pos prev m H; simpl in H.
  - destruct (try_at r false pos prev []) as [m'|] eqn:E; [|discriminate].
    injection H as ->. apply try_at_sound in E as (Hs & s' & Heq & Hm).
    exists [], s'. simpl. repeat split; try assumption; try (intros; lia).
  - destruct (try_at r false pos prev (c :: s)) as [m'|] eqn:E.
    + injection H as ->. apply try_at_sound in E as (Hs & s' & Heq & Hm).
      exists [], s'. simpl. repeat split; try assumption; try (intros; lia).
    + apply IH in H as (pre & post & Heq & Hs & Hm & Hleft).
      exists (c :: pre), post. simpl. rewrite Heq. repeat split; try assumption; try lia.
      intros pre' w' post' Heq' Hm'. destruct pre' as [|c' pre'].
      * simpl in *. pose proof (try_at_complete r pos prev w' post' Hm') as [y Hy].
        rewrite <- Heq', <- Heq in Hy. congruence.
      * simpl in *. injection Heq' as <- Heq'. rewrite <- Heq in Heq'.
        specialize (Hleft pre' w' post' Heq' Hm'). lia.
Qed.

Lemma search_from_none r s :
  forall pos prev,
    search_from r pos prev s = None ->
    forall pre w post,
      s = pre ++ w ++ post -> ~ matches r (last_char prev pre) w post.
Proof.
  induction s as [|c s IH]; intros pos prev H pre w post Heq Hm; simpl in H.
  - destruct (try_at r false pos prev []) as [m'|] eqn:E; [discriminate|].
    destruct pre; [|discriminate]. simpl in *.
    pose proof (try_at_complete r pos prev w post Hm) as [y Hy].
    rewrite <- Heq in Hy. congruence.
  - destruct (try_at r false pos prev (c :: s)) as [m'|] eqn:E; [discriminate|].
    destruct pre as [|c' pre]; simpl in *.
    + pose proof (try_at_complete r pos prev w post Hm) as [y Hy].
      rewrite <- Heq in Hy. congruence.
    + injection Heq as <- Heq. exact (IH _ _ H pre w post Heq Hm).
Qed.

End MatcherFacts.

(** ** The date pattern *)

Section DatePattern.
Import PyRe process_text.

Lemma matches_Cat r1 r2 prev w rest :
  matches (Cat r1 r2) prev w rest <->
  exists w1 w2, w = w1 ++ w2 /\ matches r1 prev w1 (w2 ++ rest)
                /\ matches r2 (last_char prev w1) w2 rest.
Proof. reflexivity. Qed.

Lemma matches_Lit c prev w rest : matches (Lit c) prev w rest <-> w = [c].
Proof.
  simpl. split.
  - intros (c' & -> & H). apply Ascii.eqb_eq in H. congruence.
  - intros ->. exists c. split; [reflexivity | apply Ascii.eqb_refl].
Qed.

Lemma matches_Str s : forall prev w rest, matches (Str s) prev w rest <-> w = s.
Proof.
  induction s as [|c s IH]; intros prev w rest.
  - simpl. reflexivity.
  - destruct s as [|a s].
    + apply matches_Lit.
    + change (Str (c :: a :: s)) with (Cat (Lit c) (Str (a :: s))).
      rewrite matches_Cat. split.
      * intros (w1 & w2 & -> & H1 & H2). apply matches_Lit in H1. apply IH in H2.
        subst. reflexivity.
      * intros ->. exists [c], (a :: s). repeat split.
        -- apply matches_Lit. reflexivity.
        -- apply IH. reflexivity.
Qed.

Lemma matches_AltOf rs : forall prev w rest,
  matches (AltOf rs) prev w rest <-> exists r, In r rs /\ matches r prev w rest.
Proof.
  induction rs as [|r rs IH]; intros prev w rest.
  - simpl. split; [intros (c & _ & H); discriminate | intros (r & [] & _)].
  - destruct rs as [|r' rs].
    + simpl. split; [intros H; exists r; auto | intros (r0 & [<-|[]] & H); exact H].
    + change (AltOf (r :: r' :: rs)) with (Alt r (AltOf (r' :: rs))).
      simpl matches. rewrite IH. split.
      * intros [H | (r0 & Hin & H)]; [exists r | exists r0]; simpl; auto.
      * intros (r0 & [<- | Hin] & H); [left; exact H | right; exists r0; auto].
Qed.

Lemma matches_names names prev w rest :
  matches (AltOf (map Word names)) prev w rest <-> one_of names w.
Proof.
  rewrite matches_AltOf. unfold one_of. split.
  - intros (r & Hin & H). apply in_map_iff in Hin as (n & <- & Hin).
    apply matches_Str in H. exists n. auto.
  - intros (n & Hin & ->). exists (Word n). split.
    + apply in_map. exact Hin.
    + apply matches_Str. reflexivity.
Qed.

(** A month name starts with a word character; a weekday name ends with one. *)
Lemma month_starts_with_letter month :
  one_of months month -> exists c rest, month = c :: rest /\ is_word c = true.
Proof.
  intros (n & Hin & ->). unfold months in Hin. simpl in Hin.
  repeat (destruct Hin as [<- | Hin]; [eexists _, _; split; reflexivity|]).
  destruct Hin.
Qed.

Lemma weekday_ends_with_letter weekday prev :
  one_of weekdays weekday -> is_word_opt (last_char prev weekday) = true.
Proof.
  intros (n & Hin & ->). unfold weekdays in Hin. simpl in Hin.
  repeat (destruct Hin as [<- | Hin]; [reflexivity|]).
  destruct Hin.
Qed.

Lemma xorb_true_r_false b : xorb b true = true <-> b = false.
Proof. destruct b; simpl; split; congruence. Qed.

Lemma xorb_true_l_false b : xorb true b = true <-> b = false.
Proof. destruct b; simpl; split; congruence. Qed.

(** What [date_pattern] denotes is the date shape. *)
Lemma date_pattern_dated prev d post :
  matches date_pattern prev d post <-> dated prev d (head post).
Proof.
  unfold date_pattern, dated. cbn [Seq]. split.
  - intros H.
    apply matches_Cat in H as (w0 & r0 & -> & [-> Hb] & H).
    apply matches_Cat in H as (month & r1 & -> & Hmonth & H).
    apply matches_names in Hmonth.
    apply matches_Cat in H as (w2 & r2 & -> & (sp1 & -> & Hsp1) & H).
    apply matches_Cat in H as (day & r3 & -> & (Hday & Hd1 & Hd2) & H).
    apply matches_Cat in H as (w4 & r4 & -> & Hcomma & H).
    apply matches_Lit in Hcomma as ->.
    apply matches_Cat in H as (w5 & r5 & -> & (sp2 & -> & Hsp2) & H).
    apply matches_Cat in H as (year & r6 & -> & (Hyear & Hy1 & Hy2) & H).
    apply matches_Cat in H as (sep & r7 & -> & Hsep & H).
    apply matches_Cat in H as (weekday & w9 & -> & Hweek & [-> Hb']).
    apply matches_names in Hweek.
    assert (Hsep' : exists commas sp3, sep = commas ++ sp3
              /\ all_of (Ascii.eqb ",") commas /\ all_of is_space sp3 /\ length sp3 <= 1).
    { destruct Hsep as [Hsep | Hsep].
      - apply matches_Cat in Hsep as (commas & sp3 & -> & (Hc & _) & (Hs & _ & Hs')).
        exists commas, sp3. repeat split; assumption.
      - simpl in Hsep. subst sep. exists [], []. repeat split; simpl; lia. }
    destruct Hsep' as (commas & sp3 & -> & Hc & Hs & Hs').
    exists month, sp1, day, sp2, year, commas, sp3, weekday.
    simpl in Hd2, Hy2. simpl last_char in Hb.
    repeat split; try assumption; try lia.
    + change (py ",") with [","%char]. rewrite !app_nil_r, <- !app_assoc. reflexivity.
    + destruct (month_starts_with_letter month Hmonth) as (c & rest & -> & Hc0).
      unfold at_boundary in Hb. simpl in Hb. rewrite Hc0 in Hb.
      apply xorb_true_r_false in Hb. exact Hb.
    + unfold at_boundary in Hb'.
      rewrite (weekday_ends_with_letter weekday _ Hweek) in Hb'.
      apply xorb_true_l_false in Hb'. exact Hb'.
  - intros (month & sp1 & day & sp2 & year & commas & sp3 & weekday & -> & Hmonth & Hsp1
            & Hday & Hd & Hsp2 & Hyear & Hy & Hc & Hs & Hs' & Hweek & Hb & Hb').
    change (py ",") with [","%char].
    apply matches_Cat. exists [], (month ++ [sp1] ++ day ++ [","%char] ++ [sp2] ++ year
                                     ++ commas ++ sp3 ++ weekday).
    split; [reflexivity|]. split.
    { split; [reflexivity|].
      destruct (month_starts_with_letter month Hmonth) as (c & rest & -> & Hc0).
      unfold at_boundary. simpl. rewrite Hc0, Hb. reflexivity. }
    apply matches_Cat. exists month, ([sp1] ++ day ++ [","%char] ++ [sp2] ++ year
                                      ++ commas ++ sp3 ++ weekday).
    split; [reflexivity|]. split; [apply matches_names; exact Hmonth|].
    apply matches_Cat. exists [sp1], (day ++ [","%char] ++ [sp2] ++ year ++ commas ++ sp3 ++ weekday).
    split; [reflexivity|]. split; [exists sp1; auto|].
    apply matches_Cat. exists day, ([","%char] ++ [sp2] ++ year ++ commas ++ sp3 ++ weekday).
    split; [reflexivity|]. split; [simpl; repeat split; try apply Hday; lia|].
    apply matches_Cat. exists [","%char], ([sp2] ++ year ++ commas ++ sp3 ++ weekday).
    split; [reflexivity|]. split; [apply matches_Lit; reflexivity|].
    apply matches_Cat. exists [sp2], (year ++ commas ++ sp3 ++ weekday).
    split; [reflexivity|]. split; [exists sp2; auto|].
    apply matches_Cat. exists year, (commas ++ sp3 ++ weekday).
    split; [reflexivity|]. split; [simpl; repeat split; try apply Hyear; lia|].
    apply matches_Cat. exists (commas ++ sp3), weekday.
    split; [rewrite <- app_assoc; reflexivity|]. split.
    { left. apply matches_Cat. exists commas, sp3. split; [reflexivity|].
      split; simpl; repeat split; try assumption; try lia. }
    apply matches_Cat. exists weekday, []. split; [rewrite app_nil_r; reflexivity|].
    split; [apply matches_names; exact Hweek|]. split; [reflexivity|].
    unfold at_boundary. rewrite (weekday_ends_with_letter weekday _ Hweek), Hb'. reflexivity.
Qed.

End DatePattern.

(** ** The chunker: publication dates *)

Section PublishedDate.
Import PyRe process_text.

Lemma find_date_some text d :
  find_date text = Some d ->
  exists pre post,
    text = pre ++ d ++ post /\ dated (last pre) d (head post)
    /\ forall pre' d' post',
         text = pre' ++ d' ++ post' -> dated (last pre') d' (head post') ->
         length pre <= length pre'.
Proof.
  unfold find_date, search. intros H.
  destruct (search_from date_pattern 0 None text) as [m|] eqn:E; [|discriminate].
  simpl in H. injection H as <-.
  apply search_from_sound in E as (pre & post & Heq & _ & Hm & Hleft).
  exists pre, post. rewrite last_char_last in Hm. split; [exact Heq|]. split.
  - apply date_pattern_dated. exact Hm.
  - intros pre' d' post' Heq' Hd. apply (Hleft pre' d' post' Heq').
    rewrite last_char_last. apply date_pattern_dated. exact Hd.
Qed.

Lemma find_date_none text :
  find_date text = None ->
  forall pre d post, text = pre ++ d ++ post -> ~ dated (last pre) d (head post).
Proof.
  unfold find_date, search. intros H pre d post Heq Hd.
  destruct (search_from date_pattern 0 None text) as [m|] eqn:E; [discriminate|].
  apply (search_from_none _ _ _ _ E pre d post Heq).
  rewrite last_char_last. apply date_pattern_dated. exact Hd.
Qed.

(** Every chunk of an article carries the values the article step
    computed. *)
Lemma article_step_chunks split_text codes article codes' chunks :
  article_step split_text codes article = inr (codes', chunks) ->
  exists first body,
    split md_pattern article !! 0 = Some first
    /\ split md_pattern article !! 1 = Some body
    /\ update_codes codes = inr codes'
    /\ chunks = map (fun c => Chunk c codes' (find_date first)) (split_text body).
Proof.
  unfold article_step, getitem, mbind, outcome_bind, mret, outcome_ret, raise.
  destruct (split md_pattern article !! 0) as [first|]; [|discriminate].
  destruct (update_codes codes) as [e|c']; [discriminate|].
  destruct (split md_pattern article !! 1) as [body|]; [|discriminate].
  intros H. injection H as <- <-. exists first, body. repeat split.
Qed.

(** C4, as the code has it: in the tagged-era path the published date of
    every chunk of an article is what the date search finds in the
    article's first fragment (the text before the score line).  When a date
    is found it is the literal text of the leftmost place in the fragment
    that reads month, day, year and a weekday name, the weekday being
    required, between characters that are no word characters; the date is
    absent exactly when the fragment has no such place. *)
Theorem published_date_is_leftmost_dated_text :
  forall split_text codes article codes' chunks c,
    article_step split_text codes article = inr (codes', chunks) ->
    In c chunks ->
    exists first,
      head (split md_pattern article) = Some first
      /\ published_date c = find_date first
      /\ match published_date c with
         | Some d =>
             exists pre post,
               first = pre ++ d ++ post /\ dated (last pre) d (head post)
               /\ forall pre' d' post',
                    first = pre' ++ d' ++ post' -> dated (last pre') d' (head post') ->
                    length pre <= length pre'
         | None =>
             forall pre d post,
               first = pre ++ d ++ post -> ~ dated (last pre) d (head post)
         end.
Proof.
  intros split_text codes article codes' chunks c H Hin.
  apply article_step_chunks in H as (first & body & H0 & _ & _ & ->).
  apply in_map_iff in Hin as (t & <- & _).
  exists first. rewrite head_lookup. split; [exact H0|]. split; [reflexivity|].
  simpl. destruct (find_date first) as [d|] eqn:E.
  - apply find_date_some. exact E.
  - apply find_date_none. exact E.
Qed.

(** The date with its weekday is found and kept as it stands. *)
Lemma published_date_is_leftmost_dated_text_witness :
  exists first,
    head (split md_pattern (py "March 20, 2003, Thursday\nSVM score: 0.91\nTroops landed."))
      = Some first
    /\ published_date (Chunk (py "Troops landed.") CodesNone
                             (Some (py "March 20, 2003, Thursday")))
       = find_date first
    /\ match published_date (Chunk (py "Troops landed.") CodesNone
                                   (Some (py "March 20, 2003, Thursday"))) with
       | Some d =>
           exists pre post,
             first = pre ++ d ++ post /\ dated (last pre) d (head post)
             /\ forall pre' d' post',
                  first = pre' ++ d' ++ post' -> dated (last pre') d' (head post') ->
                  length pre <= length pre'
       | None =>
           forall pre d post,
             first = pre ++ d ++ post -> ~ dated (last pre) d (head post)
       end.
Proof.
  apply (published_date_is_leftmost_dated_text whole_text (CodesList [])
           (py "March 20, 2003, Thursday\nSVM score: 0.91\nTroops landed.")
           CodesNone
           [Chunk (py "Troops landed.") CodesNone (Some (py "March 20, 2003, Thursday"))]).
  - vm_compute. reflexivity.
  - simpl. left. reflexivity.
Defined.

(** C4 with the weekday optional, as the specification words it, fails: a
    first fragment holding the date "March 20, 2003" without a weekday
    gives no published date. *)
Lemma date_without_weekday_is_absent :
  find_date (py "March 20, 2003\n") = None
  /\ article_step whole_text (CodesList [])
       (py "March 20, 2003\nSVM score: 0.91\nTroops landed.")
     = inr (CodesNone, [Chunk (py "Troops landed.") CodesNone None]).
Proof. split; vm_compute; reflexivity. Qed.

End PublishedDate.

(** ** The chunker: country codes and exceptions *)

Section CountryCodes.
Import PyRe process_text.

(** The value of [codes] after the first article of a section: the first
    pair when the header holds two pairs or more, [None] otherwise. *)
Lemma update_codes_list (l : list (str * str)) :
  update_codes (CodesList l)
  = inr (match l with p :: _ :: _ => CodesTuple p | _ => CodesNone end).
Proof. destruct l as [|p [|q l]]; reflexivity. Qed.

(** After a later article: a pair becomes its first code, a code of two
    letters or more its first letter, a single letter [None]; [None] has no
    length. *)
Lemma update_codes_again (a b : str) :
  update_codes (CodesTuple (a, b)) = inr (CodesStr a)
  /\ update_codes (CodesStr a)
     = inr (match a with c :: _ :: _ => CodesStr [c] | _ => CodesNone end)
  /\ update_codes CodesNone = inl TypeError.
Proof. repeat split. destruct a as [|c [|d a]]; reflexivity. Qed.

(** C1 at a header with exactly one code pair: the code leaves
    [country_codes] absent, for [len(codes) > 1] is false of a one-pair
    list.  The specification asks for the pair (US, GB). *)
Theorem one_code_pair_gives_no_country_codes :
  forall split_text,
    findall_codes (py "US-GB") = [(py "US", py "GB")]
    /\ update_codes (CodesList (findall_codes (py "US-GB"))) = inr CodesNone
    /\ chunk_file_for_year_content split_text
         (py "preamble\n=====\nUS-GB\n=====\nSVM score: 0.91\nTroops landed.")
       = inr (map (fun c => Chunk c CodesNone None) (split_text (py "Troops landed."))).
Proof.
  intros split_text. split; [vm_compute; reflexivity|]. split; [vm_compute; reflexivity|].
  transitivity
    (inr ((map (fun c => Chunk c CodesNone None) (split_text (py "Troops landed.")) ++ [])
          ++ []) : outcome (list chunk)).
  - vm_compute. reflexivity.
  - rewrite !app_nil_r. reflexivity.
Qed.

(** C2 at an article without a score line: [content[1]] raises
    [IndexError]; and at a second article under a header with one code
    pair or none: [len(None)] raises [TypeError]. *)
Theorem unmatched_score_line_raises :
  forall split_text,
    chunk_file_for_year_content split_text
      (py "preamble\n=====\nUS-GB FR-DE\n=====\nTroops landed.")
    = inl IndexError
    /\ chunk_file_for_year_content split_text
         (py "preamble\n=====\nheader\n=====\nSVM score: 0.91\nfirst\n-----\nSVM score: 0.52\nsecond")
       = inl TypeError.
Proof. intros split_text. split; vm_compute; reflexivity. Qed.

(** C5 at a section with two articles under a header with two code pairs:
    the chunks of the first article carry the pair (US, GB), those of the
    second carry the string "US". *)
Theorem later_article_gets_other_country_codes :
  forall split_text,
    chunk_file_for_year_content split_text
      (py "preamble\n=====\nUS-GB FR-DE\n=====\nSVM score: 0.91\nfirst\n-----\nSVM score: 0.52\nsecond")
    = inr (map (fun c => Chunk c (CodesTuple (py "US", py "GB")) None) (split_text (py "first"))
           ++ map (fun c => Chunk c (CodesStr (py "US")) None) (split_text (py "second"))).
Proof.
  intros split_text.
  transitivity
    (inr ((map (fun c => Chunk c (CodesTuple (py "US", py "GB")) None) (split_text (py "first"))
           ++ map (fun c => Chunk c (CodesStr (py "US")) None) (split_text (py "second")) ++ [])
          ++ []) : outcome (list chunk)).
  - vm_compute. reflexivity.
  - rewrite !app_nil_r. reflexivity.
Qed.



End CountryCodes.

(** ** Dispatch on the file name *)

Section Dispatch.
Import PyRe process_text.

(** X2: the general path leaves both metadata fields absent. *)
Lemma general_path_has_no_metadata split_text content c :
  In c (chunk_file_content split_text content) ->
  country_codes c = CodesNone /\ published_date c = None.
Proof.
  unfold chunk_file_content. intros H.
  apply in_flat_map in H as (section & _ & H).
  apply in_map_iff in H as (t & <- & _). split; reflexivity.
Qed.

Lemma general_path_has_no_metadata_witness :
  country_codes (Chunk (py "Troops landed.") CodesNone None) = CodesNone
  /\ published_date (Chunk (py "Troops landed.") CodesNone None) = None.
Proof.
  apply (general_path_has_no_metadata whole_text (py "Troops landed.")).
  vm_compute. left. reflexivity.
Defined.

(** The branch taken depends on the path string given to [open] and on
    nothing else. *)
Lemma read_txt_file_dispatch split_text fs file_path stored :
  fs !! file_path = Some stored ->
  read_txt_file split_text fs file_path
  = if bool_decide (file_path ∈ era_files)
    then match chunk_file_for_year_content split_text (universal_newlines stored) with
         | inl e => inl e
         | inr chunks => inr (chunks, file_path)
         end
    else inr (chunk_file_content split_text (universal_newlines stored), file_path).
Proof.
  intros H. unfold read_txt_file, file_name. rewrite H.
  destruct (bool_decide (file_path ∈ era_files)); reflexivity.
Qed.

Lemma data_path_not_era_file (file : string) : ("data/" +:+ file)%string ∉ era_files.
Proof.
  unfold era_files. simpl. intros H.
  repeat (apply elem_of_cons in H as [H|H]; [discriminate|]).
  apply elem_of_nil in H. exact H.
Qed.

(** C6 at the path "data/2003.txt", as the orchestrator builds it: the
    file name 2003.txt is on the list of era files, and the general path
    is taken, for the test compares the whole path. *)
Theorem era_file_in_directory_takes_general_path :
  forall split_text stored,
    read_txt_file split_text {[ "data/2003.txt"%string := stored ]} "data/2003.txt"
    = inr (chunk_file_content split_text (universal_newlines stored),
           "data/2003.txt"%string).
Proof.
  intros split_text stored.
  rewrite (read_txt_file_dispatch split_text _ _ stored) by apply lookup_singleton_eq.
  rewrite bool_decide_eq_false_2; [reflexivity|].
  apply (data_path_not_era_file "2003.txt").
Qed.

End Dispatch.

(** ** The index-build phase *)

Section IndexBuild.
Import process_text vector engine.

(** C3 at any file of the data directory: line 32 passes the file name
    where [create_vector_store] expects the chunks, so the first file read
    ends the run with [TypeError] and nothing is persisted. *)
Theorem index_build_raises_type_error :
  forall split_text handle (from_embeddings : list document -> outcome handle) repr
         file files walk (fs : gmap string str) stored (disk : gmap string handle),
    fs !! ("data/" +:+ file)%string = Some stored ->
    pre_process_vector_store split_text handle from_embeddings repr
      ((DATA_PATH, file :: files) :: walk) fs disk
    = (inl TypeError, disk).
Proof.
  intros split_text handle from_embeddings repr file files walk fs stored disk H.
  assert (Hjoin : path_join DATA_PATH file = ("data/" +:+ file)%string) by reflexivity.
  simpl. rewrite Hjoin.
  rewrite (read_txt_file_dispatch split_text _ _ stored H).
  rewrite bool_decide_eq_false_2 by apply data_path_not_era_file.
  reflexivity.
Qed.

Lemma index_build_raises_type_error_witness :
  pre_process_vector_store whole_text (list document) (fun docs => inr docs) (fun _ => ""%string)
    [(DATA_PATH, ["2003.txt"%string])]
    {[ "data/2003.txt"%string := py "Troops landed." ]} ∅
  = (inl TypeError, ∅).
Proof.
  apply (index_build_raises_type_error whole_text (list document) (fun docs => inr docs)
           (fun _ => ""%string) "2003.txt" [] [] _ (py "Troops landed.")).
  apply lookup_singleton_eq.
Defined.

End IndexBuild.

(** ** The answer parser *)

Section AnswerParser.
Import PyRe store_results.

Lemma drop_while_head s : is_space_opt (head (drop_while is_space s)) = false.
Proof.
  induction s as [|c s IH]; simpl; [reflexivity|].
  destruct (is_space c) eqn:E; [exact IH | simpl; exact E].
Qed.

Lemma drop_while_suffix p s : exists pre, s = pre ++ drop_while p s.
Proof.
  induction s as [|c s [pre IH]]; simpl.
  - exists []. reflexivity.
  - destruct (p c).
    + exists (c :: pre). simpl. rewrite <- IH. reflexivity.
    + exists []. reflexivity.
Qed.

Lemma last_rev (l : str) : last (rev l) = head l.
Proof. destruct l as [|c l]; simpl; [reflexivity | apply last_snoc]. Qed.

(** [strip] leaves no white space at either end. *)
Lemma strip_trimmed s : trimmed (strip s).
Proof.
  unfold trimmed, strip, rstrip. split.
  - destruct (drop_while_suffix is_space (rev (lstrip s))) as [pre Hpre].
    apply (f_equal (@rev ascii)) in Hpre. rewrite rev_involutive, rev_app_distr in Hpre.
    destruct (rev (drop_while is_space (rev (lstrip s)))) as [|c u] eqn:E; [reflexivity|].
    pose proof (drop_while_head s) as Hh. unfold lstrip in Hpre.
    rewrite Hpre in Hh. simpl in Hh |- *. exact Hh.
  - rewrite last_rev. apply drop_while_head.
Qed.

(** C7: the two-block example parses into its two facts, the approximate
    range kept as written, and every field of every extracted fact is free
    of white space at both ends. *)
Theorem answer_parser_example :
  (forall q,
     extract_data
       (Response q
          (py "- Date: 2003-03-20\n- Death Count: 3\n- Countries involved: US, Iraq\n\n- Date: 2003-03-21\n- Death Count: approximately 10-15\n- Countries involved: US, UK, Iraq\n\n"))
     = [Fact (py "2003-03-20") (py "3") (py "US, Iraq");
        Fact (py "2003-03-21") (py "approximately 10-15") (py "US, UK, Iraq")])
  /\ (forall model_response f,
        In f (extract_data model_response) ->
        trimmed (Date f) /\ trimmed (Death_Count f) /\ trimmed (Countries_involved f)).
Proof.
  split.
  - intros q. vm_compute. reflexivity.
  - intros model_response f H. unfold extract_data in H.
    apply in_map_iff in H as ([[date death_count] countries] & <- & _).
    simpl. repeat split; apply strip_trimmed.
Qed.

Lemma answer_parser_example_witness :
  trimmed (Date (Fact (py "2003-03-20") (py "3") (py "US, Iraq")))
  /\ trimmed (Death_Count (Fact (py "2003-03-20") (py "3") (py "US, Iraq")))
  /\ trimmed (Countries_involved (Fact (py "2003-03-20") (py "3") (py "US, Iraq"))).
Proof.
  apply (proj2 answer_parser_example
           (Response [] (py "- Date:  2003-03-20 \n- Death Count: 3\n- Countries involved: US, Iraq\n\n"))).
  vm_compute. left. reflexivity.
Defined.

(** C9: an answer in which the block pattern matches nowhere yields the
    empty list; [extract_data] is a total function, so nothing is raised. *)
Theorem no_match_yields_no_facts :
  forall model_response,
    finditer answer_pattern (result model_response) = [] ->
    extract_data model_response = [].
Proof.
  intros model_response H. unfold extract_data, findall_answer. rewrite H. reflexivity.
Qed.

Lemma no_match_yields_no_facts_witness :
  extract_data (Response [] (py "The article reports no casualties.")) = [].
Proof.
  apply (no_match_yields_no_facts (Response [] (py "The article reports no casualties."))).
  vm_compute. reflexivity.
Defined.

(** One fact per match of the pattern. *)
Lemma one_fact_per_match model_response :
  length (extract_data model_response)
  = length (finditer answer_pattern (result model_response)).
Proof. unfold extract_data, findall_answer. rewrite !length_map. reflexivity. Qed.

End AnswerParser.

(** ** The CSV sink *)

Section CsvSink.
Import store_results.

Lemma save_to_csv_lookup model_response filename fs :
  save_to_csv model_response filename fs !! filename
  = Some (default [] (fs !! filename)
          ++ (if bool_decide (is_Some (fs !! filename)) then [] else csv_row fieldnames)
          ++ rows_text model_response).
Proof.
  unfold save_to_csv, writer_ops, rows_text. rewrite lookup_insert_eq.
  destruct (bool_decide (is_Some (fs !! filename))); reflexivity.
Qed.

Lemma save_to_csv_exists model_response filename fs :
  bool_decide (is_Some (save_to_csv model_response filename fs !! filename)) = true.
Proof. rewrite save_to_csv_lookup. apply bool_decide_eq_true_2. eauto. Qed.

(** C8: over two appends to the same file the header is written once if
    the file was new and not at all if it existed; the second append writes
    no header, and the file then holds what it held after the first append
    followed by the rows of the second. *)
Theorem csv_append_twice :
  forall r1 r2 filename (fs : gmap string str),
    let existed := bool_decide (is_Some (fs !! filename)) in
    let fs1 := save_to_csv r1 filename fs in
    let fs2 := save_to_csv r2 filename fs1 in
    let ops1 := writer_ops existed (extract_data r1) in
    let ops2 := writer_ops (bool_decide (is_Some (fs1 !! filename))) (extract_data r2) in
    render WriteHeader = py "Date,Death Count,Countries involved\r\n"
    /\ length (filter (fun op => is_header op = true) (ops1 ++ ops2))
       = (if existed then 0 else 1)
    /\ ops2 = map WriteRow (extract_data r2)
    /\ fs1 !! filename
       = Some (default [] (fs !! filename)
               ++ (if existed then [] else csv_row fieldnames) ++ rows_text r1)
    /\ exists before, fs1 !! filename = Some before
                      /\ fs2 !! filename = Some (before ++ rows_text r2).
Proof.
  intros r1 r2 filename fs existed fs1 fs2 ops1 ops2.
  assert (Hops2 : ops2 = map WriteRow (extract_data r2)).
  { unfold ops2, fs1. rewrite save_to_csv_exists. reflexivity. }
  assert (Hrows : forall data, filter (fun op => is_header op = true) (map WriteRow data) = []).
  { induction data as [|d data IH]; [reflexivity|]. simpl.
    rewrite filter_cons_False; [exact IH | simpl; discriminate]. }
  split; [vm_compute; reflexivity|].
  split; [|split; [exact Hops2|split]].
  - rewrite Hops2, filter_app, length_app, Hrows. unfold ops1, writer_ops.
    rewrite filter_app, length_app, Hrows. destruct existed; reflexivity.
  - apply save_to_csv_lookup.
  - eexists. split; [apply save_to_csv_lookup|].
    unfold fs2. rewrite save_to_csv_lookup. unfold fs1 at 2. rewrite save_to_csv_exists.
    unfold fs1. rewrite save_to_csv_lookup. reflexivity.
Qed.

End CsvSink.

(** ** Loading a vector store *)

Section LoadStore.
Import vector.



End LoadStore.

(** ** The missing index *)

Section Degradation.
Import PyRe process_text vector engine.



End Degradation.

(** ** The chunker: which files yield chunks, and which chunks *)

Section ChunkerOutput.
Import PyRe process_text.

Lemma pieces_length s ms : forall last, length (pieces s last ms) = S (length ms).
Proof. induction ms as [|m ms IH]; intros last; simpl; [reflexivity | rewrite IH; reflexivity]. Qed.

(** [re.split] returns one piece more than there are matches. *)
Lemma split_length r s : length (split r s) = S (length (finditer r s)).
Proof. apply pieces_length. Qed.

(** X4: a tagged-era file with fewer than two section delimiters has no
    body section: the result is the empty list, and nothing is raised. *)
Theorem fewer_than_two_delimiters_no_chunks :
  forall split_text content,
    length (finditer section_pattern content) < 2 ->
    chunk_file_for_year_content split_text content = inr [].
Proof.
  intros split_text content H. unfold chunk_file_for_year_content.
  rewrite split_length.
  destruct (length (finditer section_pattern content)) as [|[|n]]; [reflexivity | reflexivity | lia].
Qed.

Lemma fewer_than_two_delimiters_no_chunks_witness :
  chunk_file_for_year_content whole_text
    (py "preamble\n=====\nSVM score: 0.91\nTroops landed.") = inr [].
Proof.
  apply (fewer_than_two_delimiters_no_chunks whole_text
           (py "preamble\n=====\nSVM score: 0.91\nTroops landed.")).
  vm_compute. lia.
Defined.

(** Each article a section goes through uses up one update of [codes]. *)
Lemma update_codes_uses_one codes codes' :
  update_codes codes = inr codes' -> updates_left codes' < updates_left codes.
Proof.
  destruct codes as [l|[a b]|s|]; simpl.
  - destruct l as [|p [|q l]]; simpl; intros H; injection H as <-; simpl; lia.
  - intros H. injection H as <-. simpl. destruct (1 <? length a); lia.
  - destruct s as [|c [|d s]]; simpl; intros H; injection H as <-; simpl; lia.
  - discriminate.
Qed.

Lemma for_articles_runs_out split_text news_articles :
  forall codes,
    updates_left codes < length news_articles ->
    exists e, for_articles split_text codes news_articles = inl e.
Proof.
  induction news_articles as [|article rest IH]; intros codes H; simpl in H; [lia|].
  simpl. destruct (article_step split_text codes article) as [e|[codes' chunks]] eqn:E.
  - exists e. reflexivity.
  - apply article_step_chunks in E as (first & body & _ & _ & Hup & _).
    apply update_codes_uses_one in Hup.
    destruct (IH codes') as [e He]; [lia|].
    exists e. simpl. rewrite He. reflexivity.
Qed.

Lemma for_sections_propagates split_text sections indices i e :
  In i indices -> section_step split_text sections i = inl e ->
  exists e', for_sections split_text sections indices = inl e'.
Proof.
  induction indices as [|j indices IH]; intros Hin He; [destruct Hin|].
  simpl. destruct Hin as [-> | Hin].
  - rewrite He. exists e. reflexivity.
  - destruct (section_step split_text sections j) as [e0|chunks]; [exists e0; reflexivity|].
    destruct (IH Hin He) as [e' He']. exists e'. simpl. rewrite He'. reflexivity.
Qed.

Lemma py_range_in_bounds i n : In i (py_range 2 n 2) -> 1 <= i < n.
Proof.
  unfold py_range. intros H. apply in_map_iff in H as (k & <- & Hk).
  change (2 - 1) with 1 in Hk.
  pose proof (Nat.Div0.mul_div_le (n - 2 + 1) 2) as Hq.
  remember ((n - 2 + 1) / 2) as q. apply in_seq in Hk. lia.
Qed.

(** X6: a tagged-era file raises, and returns no chunk at all, when one of
    its body sections holds five articles or more, or holds two articles or
    more under a header with fewer than two code pairs. *)
Theorem section_with_many_articles_raises :
  forall split_text content i header,
    let sections := split section_pattern content in
    In i (py_range 2 (length sections) 2) ->
    sections !! (i - 1) = Some header ->
    5 <= length (articles_at sections i)
    \/ (2 <= length (articles_at sections i) /\ length (findall_codes header) < 2) ->
    exists e, chunk_file_for_year_content split_text content = inl e.
Proof.
  intros split_text content i header sections Hin Hheader Hmany.
  unfold chunk_file_for_year_content. fold sections.
  pose proof (py_range_in_bounds _ _ Hin) as Hi.
  destruct (sections !! i) as [body|] eqn:Hbody;
    [|apply lookup_ge_None in Hbody; lia].
  assert (Hstep : exists e, section_step split_text sections i = inl e).
  { unfold section_step, getitem. rewrite Hbody, Hheader. simpl.
    apply for_articles_runs_out. unfold articles_at in Hmany. rewrite Hbody in Hmany.
    simpl in Hmany |- *.
    destruct Hmany as [H5 | [H2 Hpairs]].
    - destruct (1 <? length (findall_codes header)); lia.
    - destruct (Nat.ltb_spec 1 (length (findall_codes header))); lia. }
  destruct Hstep as [e He]. exact (for_sections_propagates _ _ _ _ _ Hin He).
Qed.

Lemma section_with_many_articles_raises_witness :
  exists e,
    chunk_file_for_year_content whole_text
      (py "preamble\n=====\nUS-GB\n=====\nSVM score: 0.91\nfirst\n-----\nSVM score: 0.52\nsecond")
    = inl e.
Proof.
  apply (section_with_many_articles_raises whole_text
           (py "preamble\n=====\nUS-GB\n=====\nSVM score: 0.91\nfirst\n-----\nSVM score: 0.52\nsecond")
           2 (py "US-GB")).
  - vm_compute. left. reflexivity.
  - vm_compute. reflexivity.
  - right. vm_compute. lia.
Defined.

Lemma map_content_stamped codes date (texts : list str) :
  map content (map (fun c => Chunk c codes date) texts) = texts.
Proof. induction texts as [|t texts IH]; simpl; [reflexivity | rewrite IH; reflexivity]. Qed.

Lemma for_articles_contents split_text news_articles :
  forall codes chunks,
    for_articles split_text codes news_articles = inr chunks ->
    map content chunks = flat_map split_text (map article_body news_articles).
Proof.
  induction news_articles as [|article rest IH]; intros codes chunks H; simpl in H.
  - injection H as <-. reflexivity.
  - destruct (article_step split_text codes article) as [e|[codes' here]] eqn:E;
      [discriminate|].
    simpl in H.
    destruct (for_articles split_text codes' rest) as [e|more] eqn:E'; [discriminate|].
    simpl in H. injection H as <-.
    apply article_step_chunks in E as (first & body & _ & Hbody & _ & ->).
    assert (Hab : article_body article = body)
      by (unfold article_body; rewrite Hbody; reflexivity).
    cbn [map flat_map]. rewrite Hab, map_app, (IH _ _ E'), map_content_stamped.
    reflexivity.
Qed.

Lemma for_sections_contents split_text sections indices :
  forall chunks,
    for_sections split_text sections indices = inr chunks ->
    map content chunks
    = flat_map split_text
        (flat_map (fun i => map article_body (articles_at sections i)) indices).
Proof.
  induction indices as [|i indices IH]; intros chunks H; simpl in H.
  - injection H as <-. reflexivity.
  - destruct (section_step split_text sections i) as [e|here] eqn:E; [discriminate|].
    simpl in H.
    destruct (for_sections split_text sections indices) as [e|more] eqn:E'; [discriminate|].
    simpl in H. injection H as <-.
    unfold section_step, getitem in E.
    destruct (sections !! i) as [body|] eqn:Hbody; [|discriminate]. simpl in E.
    destruct (sections !! (i - 1)) as [header|]; [|discriminate]. simpl in E.
    apply for_articles_contents in E.
    simpl. rewrite map_app, flat_map_app, (IH _ eq_refl), E.
    unfold articles_at. rewrite Hbody. reflexivity.
Qed.

(** X7: when the tagged-era chunker returns, the texts of its chunks are,
    in the order of the file, what the splitter makes of each article's
    text after its first score line; the text before that line, and the
    text after a second score line, are in no chunk. *)
Theorem chunk_contents_in_file_order :
  forall split_text content chunks,
    chunk_file_for_year_content split_text content = inr chunks ->
    map process_text.content chunks = flat_map split_text (body_texts content).
Proof.
  intros split_text content chunks H. unfold chunk_file_for_year_content in H.
  apply for_sections_contents in H. exact H.
Qed.

Lemma chunk_contents_in_file_order_witness :
  map process_text.content
    [Chunk (py "first") (CodesTuple (py "US", py "GB")) (Some (py "March 20, 2003, Thursday"));
     Chunk (py "second") (CodesStr (py "US")) None]
  = flat_map whole_text
      (body_texts
         (py "preamble\n=====\nUS-GB FR-DE\n=====\nMarch 20, 2003, Thursday\nSVM score: 0.91\nfirst\nSVM score: 0.33\ndropped\n-----\nSVM score: 0.52\nsecond")).
Proof.
  apply (chunk_contents_in_file_order whole_text
           (py "preamble\n=====\nUS-GB FR-DE\n=====\nMarch 20, 2003, Thursday\nSVM score: 0.91\nfirst\nSVM score: 0.33\ndropped\n-----\nSVM score: 0.52\nsecond")).
  vm_compute. reflexivity.
Defined.

End ChunkerOutput.

(** ** The answer parser: where the facts come from *)

Section ParserOutput.
Import PyRe store_results.

Lemma occurs_in_refl (w : str) : occurs_in w w.
Proof. exists [], []. rewrite app_nil_r. reflexivity. Qed.

Lemma occurs_in_nil (w : str) : occurs_in [] w.
Proof. exists [], w. reflexivity. Qed.

Lemma occurs_in_trans (t w s : str) : occurs_in t w -> occurs_in w s -> occurs_in t s.
Proof.
  intros (a & b & ->) (a' & b' & ->). exists (a' ++ a), (b ++ b').
  rewrite <- !app_assoc. reflexivity.
Qed.

Lemma occurs_in_app_l (t w1 w2 : str) : occurs_in t w1 -> occurs_in t (w1 ++ w2).
Proof.
  intros H. apply (occurs_in_trans t w1); [exact H|].
  exists [], w2. reflexivity.
Qed.

Lemma occurs_in_app_r (t w1 w2 : str) : occurs_in t w2 -> occurs_in t (w1 ++ w2).
Proof.
  intros H. apply (occurs_in_trans t w2); [exact H|].
  exists w1, []. rewrite app_nil_r. reflexivity.
Qed.

(** The captures a run adds are pieces of the word it consumed. *)
Lemma rmatch_sound_caps {R} r :
  forall prev s g (k : kont R) x,
    rmatch r prev s g k = Some x ->
    exists w s' g',
      s = w ++ s' /\ matches r prev w s'
      /\ k (last_char prev w) s' g' = Some x
      /\ forall n t, In (n, t) g' -> In (n, t) g \/ occurs_in t w.
Proof.
  induction r as [|p|r1 IH1 r2 IH2|r1 IH1 r2 IH2|greedy p lo hi|n r IH|];
    intros prev s g k x H; simpl in H.
  - exists [], s, g. repeat split; auto.
  - destruct s as [|c s]; [discriminate|]. destruct (p c) eqn:Hp; [|discriminate].
    exists [c], s, g. repeat split; simpl; eauto.
  - apply IH1 in H as (w1 & s1 & g1 & -> & H1 & H & Hg1).
    apply IH2 in H as (w2 & s2 & g2 & -> & H2 & H & Hg2).
    exists (w1 ++ w2), s2, g2. rewrite <- app_assoc, last_char_app.
    repeat split; try assumption.
    + simpl. exists w1, w2. repeat split; assumption.
    + intros m t Hin. destruct (Hg2 m t Hin) as [Hin1 | Hocc].
      * destruct (Hg1 m t Hin1) as [Hin0 | Hocc]; [left; exact Hin0|].
        right. apply occurs_in_app_l. exact Hocc.
      * right. apply occurs_in_app_r. exact Hocc.
  - destruct (rmatch r1 prev s g k) as [y|] eqn:E.
    + injection H as ->. apply IH1 in E as (w & s' & g' & -> & Hm & Hk & Hg).
      exists w, s', g'. repeat split; try assumption. left. assumption.
    + apply IH2 in H as (w & s' & g' & -> & Hm & Hk & Hg).
      exists w, s', g'. repeat split; try assumption. right. assumption.
  - apply rep_sound in H as (w & s' & -> & Hall & Hlo & Hhi & Hk).
    exists w, s', g. repeat split; auto.
  - apply IH in H as (w & s' & g' & -> & Hm & Hk & Hg).
    exists w, s', ((n, consumed (w ++ s') s') :: g'). repeat split; try assumption.
    intros m t [Heq | Hin].
    + injection Heq as <- <-. right. rewrite consumed_app. apply occurs_in_refl.
    + apply Hg. exact Hin.
  - destruct (at_boundary prev s) eqn:E; [|discriminate].
    exists [], s, g. repeat split; auto.
Qed.

Lemma try_at_found r must_advance pos prev s m :
  try_at r must_advance pos prev s = Some m -> found r prev s m.
Proof.
  unfold try_at. intros H.
  apply rmatch_sound_caps in H as (w & s' & g' & -> & Hm & Hk & Hg).
  simpl in Hk.
  destruct (must_advance && (length s' =? length (w ++ s'))); [discriminate|].
  injection Hk as <-. simpl. rewrite consumed_app. split.
  - exists [], s'. split; [reflexivity | exact Hm].
  - simpl. intros n t Hin. destruct (Hg n t Hin) as [[] | Hocc]. exact Hocc.
Qed.

Lemma found_later r prev c s m : found r (Some c) s m -> found r prev (c :: s) m.
Proof.
  intros [(pre & post & -> & Hm) Hg]. split; [|exact Hg].
  exists (c :: pre), post. split; [reflexivity | exact Hm].
Qed.

Lemma finditer_from_found r s :
  forall pos prev skip m,
    In m (finditer_from r pos prev s skip) -> found r prev s m.
Proof.
  induction s as [|c s IH]; intros pos prev skip m H; simpl in H.
  - destruct skip as [|n]; [|destruct H].
    destruct (try_at r false pos prev []) as [m0|] eqn:E0; [|destruct H].
    destruct (length (m_text m0)) as [|n].
    + destruct H as [<- | H]; [exact (try_at_found _ _ _ _ _ _ E0)|].
      destruct (try_at r true pos prev []) as [m1|] eqn:E1; [|destruct H].
      destruct H as [<- | []]. exact (try_at_found _ _ _ _ _ _ E1).
    + destruct H as [<- | []]. exact (try_at_found _ _ _ _ _ _ E0).
  - destruct skip as [|n]; [|apply found_later; exact (IH _ _ _ _ H)].
    destruct (try_at r false pos prev (c :: s)) as [m0|] eqn:E0;
      [|apply found_later; exact (IH _ _ _ _ H)].
    destruct (length (m_text m0)) as [|n].
    + destruct H as [<- | H]; [exact (try_at_found _ _ _ _ _ _ E0)|].
      destruct (try_at r true pos prev (c :: s)) as [m1|] eqn:E1;
        [|apply found_later; exact (IH _ _ _ _ H)].
      destruct H as [<- | H]; [exact (try_at_found _ _ _ _ _ _ E1)|].
      apply found_later. exact (IH _ _ _ _ H).
    + destruct H as [<- | H]; [exact (try_at_found _ _ _ _ _ _ E0)|].
      apply found_later. exact (IH _ _ _ _ H).
Qed.

Lemma lookup_group_in n g w : lookup_group n g = Some w -> In (n, w) g.
Proof.
  induction g as [|[i t] g IH]; simpl; [discriminate|].
  destruct (Nat.eqb_spec i n) as [-> | _].
  - intros H. injection H as ->. left. reflexivity.
  - intros H. right. exact (IH H).
Qed.

Lemma group_occurs r prev s m n : found r prev s m -> occurs_in (group n m) s.
Proof.
  intros [(pre & post & -> & _) Hg]. unfold group.
  destruct (lookup_group n (m_caps m)) as [w|] eqn:E; [|apply occurs_in_nil].
  apply lookup_group_in in E. apply Hg in E.
  apply occurs_in_app_r, occurs_in_app_l. exact E.
Qed.

Lemma strip_occurs (s : str) : occurs_in (strip s) s.
Proof.
  unfold strip, rstrip.
  destruct (drop_while_suffix is_space s) as [pre Hpre]. fold (lstrip s) in Hpre.
  destruct (drop_while_suffix is_space (rev (lstrip s))) as [pre' Hpre'].
  apply (f_equal (@rev ascii)) in Hpre'. rewrite rev_involutive, rev_app_distr in Hpre'.
  exists pre, (rev pre'). rewrite <- Hpre'. exact Hpre.
Qed.

(** X3: the parser invents nothing: each field of each extracted fact
    occurs, character for character, in the answer text. *)
Theorem extracted_fields_occur_in_answer :
  forall model_response f,
    In f (extract_data model_response) ->
    occurs_in (Date f) (result model_response)
    /\ occurs_in (Death_Count f) (result model_response)
    /\ occurs_in (Countries_involved f) (result model_response).
Proof.
  intros model_response f H. unfold extract_data, findall_answer in H.
  rewrite map_map in H. apply in_map_iff in H as (m & <- & Hm).
  apply finditer_from_found in Hm. simpl.
  repeat split; (eapply occurs_in_trans; [apply strip_occurs | exact (group_occurs _ _ _ _ _ Hm)]).
Qed.

Lemma extracted_fields_occur_in_answer_witness :
  occurs_in (Date (Fact (py "2003-03-20") (py "3") (py "US, Iraq")))
    (result (Response [] (py "Answer:\n- Date:  2003-03-20 \n- Death Count: 3\n- Countries involved: US, Iraq\n\n")))
  /\ occurs_in (Death_Count (Fact (py "2003-03-20") (py "3") (py "US, Iraq")))
       (result (Response [] (py "Answer:\n- Date:  2003-03-20 \n- Death Count: 3\n- Countries involved: US, Iraq\n\n")))
  /\ occurs_in (Countries_involved (Fact (py "2003-03-20") (py "3") (py "US, Iraq")))
       (result (Response [] (py "Answer:\n- Date:  2003-03-20 \n- Death Count: 3\n- Countries involved: US, Iraq\n\n"))).
Proof.
  apply (extracted_fields_occur_in_answer
           (Response [] (py "Answer:\n- Date:  2003-03-20 \n- Death Count: 3\n- Countries involved: US, Iraq\n\n"))).
  vm_compute. left. reflexivity.
Defined.

(** Every text the block pattern matches ends with an empty line. *)
Lemma answer_block_ends_blank prev w rest :
  matches answer_pattern prev w rest -> exists w', w = w' ++ [LF; LF].
Proof.
  unfold answer_pattern. cbn [Seq]. intros H.
  do 23 (apply matches_Cat in H as (? & ? & -> & _ & H)).
  apply matches_Cat in H as (a & b & -> & Ha & Hb).
  apply matches_Lit in Ha, Hb. subst a b.
  eexists. rewrite !app_assoc. rewrite <- (app_assoc _ [LF] [LF]). reflexivity.
Qed.

(** X8: a block counts only when an empty line follows it: from an answer
    without two consecutive line feeds no fact is extracted, well-formed
    blocks or not. *)
Theorem answer_without_blank_line_yields_nothing :
  forall model_response,
    ~ occurs_in [LF; LF] (result model_response) ->
    extract_data model_response = [].
Proof.
  intros model_response Hno. unfold extract_data, findall_answer.
  destruct (finditer answer_pattern (result model_response)) as [|m ms] eqn:E; [reflexivity|].
  exfalso. apply Hno.
  assert (Hm : In m (finditer answer_pattern (result model_response)))
    by (rewrite E; left; reflexivity).
  apply finditer_from_found in Hm as [(pre & post & Heq & Hmatch) _].
  apply answer_block_ends_blank in Hmatch as (w' & Hw).
  rewrite Heq, Hw. exists (pre ++ w'), post. rewrite <- !app_assoc. reflexivity.
Qed.

Lemma answer_without_blank_line_yields_nothing_witness :
  extract_data
    (Response [] (py "- Date: 2003-03-20\n- Death Count: 3\n- Countries involved: US, Iraq\n"))
  = [].
Proof.
  apply (answer_without_blank_line_yields_nothing
           (Response [] (py "- Date: 2003-03-20\n- Death Count: 3\n- Countries involved: US, Iraq\n"))).
  intros (a & b & H). vm_compute in H.
  repeat (destruct a as [|? a]; [discriminate H|]; injection H as _ H).
  destruct a; discriminate H.
Defined.

End ParserOutput.

(** ** The CSV sink: what the file tells *)

Section CsvRows.
Import store_results.

Lemma needs_quotes_false field c :
  needs_quotes field = false -> In c field ->
  c <> COMMA /\ c <> QUOTE /\ c <> CR /\ c <> LF.
Proof.
  unfold needs_quotes. intros H Hin.
  assert (Hc : (Ascii.eqb c COMMA || Ascii.eqb c QUOTE || Ascii.eqb c CR || Ascii.eqb c LF)
               = false).
  { destruct (Ascii.eqb c COMMA || Ascii.eqb c QUOTE || Ascii.eqb c CR || Ascii.eqb c LF)
      eqn:E; [|reflexivity].
    assert (Hex : existsb (fun c => Ascii.eqb c COMMA || Ascii.eqb c QUOTE
                                  || Ascii.eqb c CR || Ascii.eqb c LF) field = true)
      by (apply existsb_exists; exists c; split; assumption).
    congruence. }
  repeat (apply orb_false_iff in Hc as [Hc ?]).
  repeat split; apply Ascii.eqb_neq; assumption.
Qed.

Lemma ends_field_cases d : ends_field d = true -> d = COMMA \/ d = CR.
Proof.
  unfold ends_field. intros H. apply orb_true_iff in H as [H|H];
    apply Ascii.eqb_eq in H; auto.
Qed.

Lemma ends_field_not_quote d : ends_field d = true -> d <> QUOTE.
Proof. intros H. destruct (ends_field_cases d H) as [-> | ->]; discriminate. Qed.

(** Two unquoted fields that end at a field end are the same field. *)
Lemma plain_field_unique (f1 : str) :
  forall f2 d1 d2 r1 r2,
    (forall c, In c f1 -> ends_field c = false) ->
    (forall c, In c f2 -> ends_field c = false) ->
    ends_field d1 = true -> ends_field d2 = true ->
    f1 ++ d1 :: r1 = f2 ++ d2 :: r2 ->
    f1 = f2 /\ d1 :: r1 = d2 :: r2.
Proof.
  induction f1 as [|c1 f1 IH]; intros [|c2 f2] d1 d2 r1 r2 H1 H2 Hd1 Hd2 H; simpl in H.
  - split; [reflexivity | exact H].
  - injection H as -> _. rewrite (H2 c2) in Hd1 by (left; reflexivity). discriminate.
  - injection H as -> _. rewrite (H1 d2) in Hd2 by (left; reflexivity). discriminate.
  - injection H as -> H.
    destruct (IH f2 d1 d2 r1 r2) as [-> Hr]; auto.
    + intros c Hc. apply H1. right. exact Hc.
    + intros c Hc. apply H2. right. exact Hc.
Qed.

(** Two quoted fields whose closing quote is followed by something else
    than a quote are the same field. *)
Lemma quoted_field_unique (f1 : str) :
  forall f2 d1 d2 r1 r2,
    d1 <> QUOTE -> d2 <> QUOTE ->
    double_quotes f1 ++ QUOTE :: d1 :: r1 = double_quotes f2 ++ QUOTE :: d2 :: r2 ->
    f1 = f2 /\ d1 :: r1 = d2 :: r2.
Proof.
  unfold double_quotes.
  induction f1 as [|c1 f1 IH]; intros [|c2 f2] d1 d2 r1 r2 Hd1 Hd2 H; simpl in H.
  - injection H as -> ->. split; reflexivity.
  - destruct (Ascii.eqb_spec c2 QUOTE) as [-> | Hc2]; simpl in H.
    + injection H as H _. congruence.
    + injection H as H _. congruence.
  - destruct (Ascii.eqb_spec c1 QUOTE) as [-> | Hc1]; simpl in H.
    + injection H as H _. congruence.
    + injection H as H _. congruence.
  - destruct (Ascii.eqb_spec c1 QUOTE) as [-> | Hc1];
      destruct (Ascii.eqb_spec c2 QUOTE) as [-> | Hc2]; simpl in H.
    + injection H as H. destruct (IH f2 d1 d2 r1 r2 Hd1 Hd2 H) as [-> Hr].
      split; [reflexivity | exact Hr].
    + injection H as H _. congruence.
    + injection H as H _. congruence.
    + injection H as -> H. destruct (IH f2 d1 d2 r1 r2 Hd1 Hd2 H) as [-> Hr].
      split; [reflexivity | exact Hr].
Qed.

Lemma plain_has_no_field_end field :
  needs_quotes field = false -> forall c, In c field -> ends_field c = false.
Proof.
  intros H c Hc. destruct (needs_quotes_false field c H Hc) as (H1 & _ & H3 & _).
  unfold ends_field. apply orb_false_iff. split; apply Ascii.eqb_neq; assumption.
Qed.

(** A written field followed by a field end can be read back in one way. *)
Lemma csv_field_unique f1 f2 d1 d2 r1 r2 :
  ends_field d1 = true -> ends_field d2 = true ->
  csv_field f1 ++ d1 :: r1 = csv_field f2 ++ d2 :: r2 ->
  f1 = f2 /\ d1 :: r1 = d2 :: r2.
Proof.
  intros Hd1 Hd2. unfold csv_field.
  destruct (needs_quotes f1) eqn:Q1; destruct (needs_quotes f2) eqn:Q2; intros H.
  - simpl in H. injection H as H. rewrite <- !app_assoc in H. simpl in H.
    apply (quoted_field_unique f1 f2 d1 d2 r1 r2); auto using ends_field_not_quote.
  - simpl in H. destruct f2 as [|c f2]; simpl in H.
    + injection H as H _. apply ends_field_not_quote in Hd2. congruence.
    + injection H as H _.
      destruct (needs_quotes_false (c :: f2) c Q2) as (_ & Hq & _); [left; reflexivity|].
      congruence.
  - simpl in H. destruct f1 as [|c f1]; simpl in H.
    + injection H as H _. apply ends_field_not_quote in Hd1. congruence.
    + injection H as H _.
      destruct (needs_quotes_false (c :: f1) c Q1) as (_ & Hq & _); [left; reflexivity|].
      congruence.
  - apply (plain_field_unique f1 f2 d1 d2 r1 r2); auto.
    + exact (plain_has_no_field_end f1 Q1).
    + exact (plain_has_no_field_end f2 Q2).
Qed.

Lemma row_unique (f1 f2 : fact) (r1 r2 : str) :
  render (WriteRow f1) ++ r1 = render (WriteRow f2) ++ r2 -> f1 = f2 /\ r1 = r2.
Proof.
  destruct f1 as [a1 b1 c1], f2 as [a2 b2 c2]. unfold render, csv_row. simpl.
  rewrite <- !app_assoc. simpl. intros H.
  apply csv_field_unique in H as [-> H]; [|reflexivity|reflexivity].
  injection H as H. rewrite <- !app_assoc in H. simpl in H.
  apply csv_field_unique in H as [-> H]; [|reflexivity|reflexivity].
  injection H as H.
  apply csv_field_unique in H as [-> H]; [|reflexivity|reflexivity].
  injection H as H. split; [reflexivity | exact H].
Qed.

Lemma rows_unique (facts1 : list fact) :
  forall facts2,
    concat (map render (map WriteRow facts1)) = concat (map render (map WriteRow facts2)) ->
    facts1 = facts2.
Proof.
  induction facts1 as [|f1 facts1 IH]; intros [|f2 facts2] H.
  - reflexivity.
  - exfalso. destruct f2 as [a b c]. simpl in H. unfold csv_row in H.
    apply (f_equal (@length ascii)) in H. simpl in H. rewrite !length_app in H.
    simpl in H. lia.
  - exfalso. destruct f1 as [a b c]. simpl in H. unfold csv_row in H.
    apply (f_equal (@length ascii)) in H. simpl in H. rewrite !length_app in H.
    simpl in H. lia.
  - cbn [map concat] in H. apply row_unique in H as [-> H]. rewrite (IH _ H). reflexivity.
Qed.

(** X9: the file tells the facts: two answers whose appends leave the same
    file system were parsed into the same sequence of facts, whatever
    commas, quotes or line breaks their fields hold. *)
Theorem csv_file_determines_facts :
  forall r1 r2 filename (fs : gmap string str),
    save_to_csv r1 filename fs = save_to_csv r2 filename fs ->
    extract_data r1 = extract_data r2.
Proof.
  intros r1 r2 filename fs H.
  apply (f_equal (fun m => m !! filename)) in H. simpl in H.
  rewrite !save_to_csv_lookup in H. injection H as H.
  apply app_inv_head in H. apply app_inv_head in H.
  apply rows_unique. exact H.
Qed.

Lemma csv_file_determines_facts_witness :
  extract_data (Response (py "first question")
                  (py "- Date: 2003-03-20\n- Death Count: 3\n- Countries involved: US, Iraq\n\n"))
  = extract_data (Response (py "second question")
                    (py "- Date: 2003-03-20\n- Death Count: 3\n- Countries involved: US, Iraq\n\n")).
Proof.
  apply (csv_file_determines_facts _ _ "results/military_casualties.csv"%string ∅).
  reflexivity.
Defined.

Lemma appended_to_refl filename fs : appended_to filename fs fs.
Proof.
  repeat split; auto. exists []. rewrite app_nil_r. reflexivity.
Qed.

Lemma appended_to_trans filename fs1 fs2 fs3 :
  appended_to filename fs1 fs2 -> appended_to filename fs2 fs3 ->
  appended_to filename fs1 fs3.
Proof.
  intros (Ho & (a & Ha) & Hs) (Ho' & (a' & Ha') & Hs'). repeat split.
  - intros p Hp. rewrite (Ho' p Hp). apply Ho. exact Hp.
  - exists (a ++ a'). rewrite Ha', Ha, app_assoc. reflexivity.
  - auto.
Qed.

Lemma save_to_csv_appended model_response filename fs :
  appended_to filename fs (save_to_csv model_response filename fs).
Proof.
  repeat split.
  - intros p Hp. unfold save_to_csv. apply lookup_insert_ne. congruence.
  - rewrite save_to_csv_lookup. simpl. eauto.
  - intros _. rewrite save_to_csv_lookup. eauto.
Qed.

End CsvRows.

(** ** The two phases of the run *)

Section Phases.
Import process_text store_results vector engine.

Lemma for_answers_appended {handle} load_local ask_gpt root files :
  forall (fs : gmap string str) (disk : gmap string handle) r fs',
    for_answers handle load_local ask_gpt root files fs disk = (r, fs') ->
    appended_to (RESULTS_PATH +:+ "military_casualties.csv") fs fs'.
Proof.
  induction files as [|file rest IH]; intros fs disk r fs' H; simpl in H.
  - injection H as _ <-. apply appended_to_refl.
  - destruct (get_file_name fs (path_join root file)) as [e|name];
      [injection H as _ <-; apply appended_to_refl|].
    destruct (retrieve_vector_store handle load_local name disk) as [e|vector_store];
      [injection H as _ <-; apply appended_to_refl|].
    destruct (ask_gpt vector_store) as [e|answer];
      [injection H as _ <-; apply appended_to_refl|].
    apply IH in H. eapply appended_to_trans; [apply save_to_csv_appended | exact H].
Qed.

(** X10: however the extract-and-save phase ends, with or without an
    exception, it has only added text at the end of the results file:
    what the file held before is still its beginning, the file is not
    removed, and no other file has changed. *)
Theorem extract_phase_only_appends :
  forall handle load_local ask_gpt walk (fs : gmap string str)
         (disk : gmap string handle) r fs',
    post_process_results handle load_local ask_gpt walk fs disk = (r, fs') ->
    appended_to (RESULTS_PATH +:+ "military_casualties.csv") fs fs'.
Proof.
  intros handle load_local ask_gpt walk. induction walk as [|[root files] walk IH];
    intros fs disk r fs' H; simpl in H.
  - injection H as _ <-. apply appended_to_refl.
  - destruct (for_answers handle load_local ask_gpt root files fs disk) as [[e|u] fs1] eqn:E.
    + injection H as _ <-. exact (for_answers_appended _ _ _ _ _ _ _ _ E).
    + apply for_answers_appended in E. apply IH in H.
      exact (appended_to_trans _ _ _ _ E H).
Qed.

Lemma extract_phase_only_appends_witness :
  appended_to (RESULTS_PATH +:+ "military_casualties.csv")
    ({[ "data/2003.txt"%string := py "Troops landed." ]} : gmap string str)
    (save_to_csv
       (Response [] (py "- Date: 2003-03-20\n- Death Count: 3\n- Countries involved: US, Iraq\n\n"))
       (RESULTS_PATH +:+ "military_casualties.csv")
       {[ "data/2003.txt"%string := py "Troops landed." ]}).
Proof.
  apply (extract_phase_only_appends nat (fun _ stored => inr stored)
           (fun _ => inr (Response [] (py "- Date: 2003-03-20\n- Death Count: 3\n- Countries involved: US, Iraq\n\n")))
           [(DATA_PATH, ["2003.txt"%string])]
           {[ "data/2003.txt"%string := py "Troops landed." ]}
           {[ store_path "data/2003.txt" := 7 ]}
           (inr tt)).
  simpl. unfold get_file_name, file_name.
  change (path_join DATA_PATH "2003.txt") with "data/2003.txt"%string.
  rewrite lookup_singleton_eq. simpl.
  unfold retrieve_vector_store. rewrite lookup_singleton_eq. reflexivity.
Defined.


Lemma path_join_nonempty root file : root <> ""%string -> path_join root file <> ""%string.
Proof.
  intros H. unfold path_join. rewrite bool_decide_eq_false_2 by exact H.
  destruct root as [|c root]; [congruence|].
  destruct (ends_with_slash (String c root)); discriminate.
Qed.

Lemma read_txt_file_name split_text fs file_path chunks name :
  read_txt_file split_text fs file_path = inr (chunks, name) -> name = file_path.
Proof.
  unfold read_txt_file, file_name. destruct (fs !! file_path); [|discriminate].
  destruct (bool_decide (file_path ∈ era_files)).
  - destruct (chunk_file_for_year_content split_text (universal_newlines l));
      simpl; [discriminate|]. intros H. injection H as _ <-. reflexivity.
  - simpl. intros H. injection H as _ <-. reflexivity.
Qed.

(** With a file to process the inner loop of the index-build phase ends in
    an exception, and the persisted stores stay as they were. *)
Lemma for_files_persists_nothing {handle} split_text from_embeddings repr root files
    (fs : gmap string str) (disk : gmap string handle) :
  root <> ""%string ->
  for_files split_text handle from_embeddings repr root files fs disk = (inr tt, disk)
  /\ files = []
  \/ exists e, for_files split_text handle from_embeddings repr root files fs disk
               = (inl e, disk).
Proof.
  intros Hroot. destruct files as [|file rest]; [left; split; reflexivity|].
  right. simpl.
  destruct (read_txt_file split_text fs (path_join root file)) as [e|[chunks name]] eqn:E;
    [exists e; reflexivity|].
  apply read_txt_file_name in E as ->.
  pose proof (path_join_nonempty root file Hroot) as Hne.
  unfold create_vector_store. destruct (path_join root file); [congruence|].
  exists TypeError. reflexivity.
Qed.

Lemma pre_process_persists_nothing {handle} split_text from_embeddings repr walk
    (fs : gmap string str) (disk : gmap string handle) :
  (forall root files, In (root, files) walk -> root <> ""%string) ->
  pre_process_vector_store split_text handle from_embeddings repr walk fs disk
    = (inr tt, disk)
  /\ (forall root files, In (root, files) walk -> files = [])
  \/ exists e, pre_process_vector_store split_text handle from_embeddings repr walk fs disk
               = (inl e, disk).
Proof.
  induction walk as [|[root files] walk IH]; intros Hroots.
  - left. split; [reflexivity | intros ? ? []].
  - simpl.
    destruct (for_files_persists_nothing split_text from_embeddings repr root files fs disk)
      as [[-> ->] | [e ->]].
    + apply (Hroots root files). left. reflexivity.
    + destruct IH as [[-> Hempty] | [e ->]].
      * intros r f Hin. apply (Hroots r f). right. exact Hin.
      * left. split; [reflexivity|].
        intros r f [Heq | Hin]; [injection Heq as <- <-; reflexivity | eauto].
      * right. exists e. reflexivity.
    + right. exists e. reflexivity.
Qed.

Lemma post_process_without_files {handle} load_local ask_gpt walk
    (fs : gmap string str) (disk : gmap string handle) :
  (forall root files, In (root, files) walk -> files = []) ->
  post_process_results handle load_local ask_gpt walk fs disk = (inr tt, fs).
Proof.
  induction walk as [|[root files] walk IH]; intros Hempty; [reflexivity|].
  simpl. rewrite (Hempty root files) by (left; reflexivity). simpl.
  apply IH. intros r f Hin. apply (Hempty r f). right. exact Hin.
Qed.

(** X12: the run as [main] wires it produces nothing.  Whatever the data
    directory holds, [main] leaves every file and every persisted store as
    it found them, and it ends without an exception only when the
    directory holds no file at all: the index-build phase raises at the
    first file, before the extract-and-save phase can start. *)
Theorem main_produces_nothing :
  forall split_text handle (from_embeddings : list document -> outcome handle) repr
         load_local ask_gpt walk (fs : gmap string str) (disk : gmap string handle),
    (forall root files, In (root, files) walk -> root <> ""%string) ->
    exists r,
      main split_text handle from_embeddings repr load_local ask_gpt walk fs disk
      = (r, fs, disk)
      /\ (r = inr tt -> forall root files, In (root, files) walk -> files = []).
Proof.
  intros split_text handle from_embeddings repr load_local ask_gpt walk fs disk Hroots.
  unfold main.
  destruct (pre_process_persists_nothing split_text from_embeddings repr walk fs disk Hroots)
    as [[-> Hempty] | [e ->]].
  - rewrite (post_process_without_files load_local ask_gpt walk fs disk Hempty).
    exists (inr tt). split; [reflexivity | intros _; exact Hempty].
  - exists (inl e). split; [reflexivity | discriminate].
Qed.

Lemma main_produces_nothing_witness :
  exists r,
    main whole_text (list document) (fun docs => inr docs) (fun _ => ""%string)
      (fun _ stored => inr stored)
      (fun _ => inr (Response [] (py "- Date: 2003-03-20\n- Death Count: 3\n- Countries involved: US, Iraq\n\n")))
      [(DATA_PATH, ["2003.txt"%string])]
      {[ "data/2003.txt"%string := py "Troops landed." ]} ∅
    = (r, {[ "data/2003.txt"%string := py "Troops landed." ]}, ∅)
    /\ (r = inr tt ->
        forall root files, In (root, files) [(DATA_PATH, ["2003.txt"%string])] -> files = []).
Proof.
  apply (main_produces_nothing whole_text (list document) (fun docs => inr docs)
           (fun _ => ""%string) (fun _ stored => inr stored)
           (fun _ => inr (Response [] (py "- Date: 2003-03-20\n- Death Count: 3\n- Countries involved: US, Iraq\n\n")))
           [(DATA_PATH, ["2003.txt"%string])]).
  intros root files [H | []]. injection H as <- _. discriminate.
Defined.

End Phases.

(** ** The chunker: when it returns and what it stamps *)

Section ChunkerCauses.
Import PyRe process_text.








(** X14: in a body section that is a single article the chunks carry the
    first code pair of the header when the header holds two pairs or more,
    and no country codes when it holds one pair or none. *)
Theorem single_article_country_codes :
  forall split_text sections i header article chunks c,
    sections !! (i - 1) = Some header ->
    articles_at sections i = [article] ->
    section_step split_text sections i = inr chunks ->
    In c chunks ->
    country_codes c
    = match findall_codes header with
      | p :: _ :: _ => CodesTuple p
      | _ => CodesNone
      end.
Proof.
  intros split_text sections i header article chunks c Hheader Harts Hstep Hin.
  unfold section_step, getitem in Hstep. unfold articles_at in Harts.
  destruct (sections !! i) as [body|]; [|discriminate]. simpl in Hstep, Harts.
  rewrite Hheader in Hstep. simpl in Hstep. rewrite Harts in Hstep. simpl in Hstep.
  destruct (article_step split_text (CodesList (findall_codes header)) article)
    as [e|[codes' here]] eqn:E; [discriminate|].
  simpl in Hstep. injection Hstep as <-. rewrite app_nil_r in Hin.
  apply article_step_chunks in E as (first & text & _ & _ & Hup & ->).
  apply in_map_iff in Hin as (t & <- & _). simpl.
  rewrite update_codes_list in Hup. injection Hup as <-. reflexivity.
Qed.

Lemma single_article_country_codes_witness :
  country_codes (Chunk (py "Troops landed.") (CodesTuple (py "US", py "GB")) None)
  = match findall_codes (py "US-GB FR-DE") with
    | p :: _ :: _ => CodesTuple p
    | _ => CodesNone
    end.
Proof.
  apply (single_article_country_codes whole_text
           [py "preamble"; py "US-GB FR-DE"; py "SVM score: 0.91\nTroops landed."]
           2 (py "US-GB FR-DE") (py "SVM score: 0.91\nTroops landed.")
           [Chunk (py "Troops landed.") (CodesTuple (py "US", py "GB")) None]).
  - reflexivity.
  - vm_compute. reflexivity.
  - vm_compute. reflexivity.
  - left. reflexivity.
Defined.

(** X15: a file whose path is not on the list of era files is read on the
    general path: a missing file raises [FileNotFoundError], an existing
    one never raises, and its chunks come back with the path as the name
    and with both metadata fields absent. *)
Theorem other_files_read_without_metadata :
  forall split_text (fs : gmap string str) file_path,
    file_path ∉ era_files ->
    match fs !! file_path with
    | None => read_txt_file split_text fs file_path = inl FileNotFoundError
    | Some stored =>
        exists chunks,
          read_txt_file split_text fs file_path = inr (chunks, file_path)
          /\ forall c, In c chunks ->
               country_codes c = CodesNone /\ published_date c = None
    end.
Proof.
  intros split_text fs file_path Hnot. unfold read_txt_file, file_name.
  destruct (fs !! file_path) as [stored|]; [|reflexivity].
  rewrite bool_decide_eq_false_2 by exact Hnot.
  eexists. split; [reflexivity|].
  intros c Hin. unfold chunk_file_content in Hin.
  apply in_flat_map in Hin as (section & _ & Hin).
  apply in_map_iff in Hin as (t & <- & _). split; reflexivity.
Qed.

Lemma other_files_read_without_metadata_witness :
  match ({[ "data/2003.txt"%string := py "Troops landed." ]} : gmap string str)
          !! "data/2003.txt"%string with
  | None =>
      read_txt_file whole_text {[ "data/2003.txt"%string := py "Troops landed." ]}
        "data/2003.txt" = inl FileNotFoundError
  | Some stored =>
      exists chunks,
        read_txt_file whole_text {[ "data/2003.txt"%string := py "Troops landed." ]}
          "data/2003.txt" = inr (chunks, "data/2003.txt"%string)
        /\ forall c, In c chunks ->
             country_codes c = CodesNone /\ published_date c = None
  end.
Proof.
  apply (other_files_read_without_metadata whole_text
           {[ "data/2003.txt"%string := py "Troops landed." ]} "data/2003.txt").
  apply (data_path_not_era_file "2003.txt").
Defined.

End ChunkerCauses.

Section StoreWitness.
Import process_text vector.


End StoreWitness.
